(** * Dense embedding model (src/model/bgem3.py): encode, score, losses, ranking

    Shallow embedding of [M3DenseEmbedModel], [M3ForInference] and
    [M3ForScore].  Tensors are contiguous row-major buffers with a
    shape; Python exceptions are values of an error monad; scalars are
    an abstract type with the arithmetic the code uses (instantiated
    with the reals at the end of the file, where floating-point
    rounding is idealised away). *)

From Stdlib Require Import String.
From Stdlib Require Import List ZArith Lia Bool PeanoNat Reals Lra.
Import ListNotations.
Local Open Scope string_scope.
Local Open Scope list_scope.
Local Open Scope nat_scope.

Set Implicit Arguments.

(** ** Python exceptions and fallible computations *)

Inductive exn : Type :=
| TypeError | ValueError | RuntimeError | ZeroDivisionError
| KeyError | IndexError | AttributeError
| EmptyCatError (* what [torch.cat] raises on an empty list: a [ValueError]
                   or a [RuntimeError], by the version of torch *)
| Unmodelled (* an operand rank this development does not cover *).

Inductive result (A : Type) : Type :=
| Ok (a : A)
| Raise (e : exn).
Arguments Ok {A} a.
Arguments Raise {A} e.

Definition bind {A B} (m : result A) (k : A -> result B) : result B :=
  match m with
  | Ok a => k a
  | Raise e => Raise e
  end.

Notation "x <- m ;; k" := (bind m (fun x => k))
  (at level 61, m at next level, right associativity).
Notation "' p <- m ;; k" := (bind m (fun p => k))
  (at level 61, p pattern, m at next level, right associativity).

Fixpoint mapM {A B} (f : A -> result B) (l : list A) : result (list B) :=
  match l with
  | [] => Ok []
  | a :: l' => b <- f a ;; bs <- mapM f l' ;; Ok (b :: bs)
  end.

(** ** Python's binding of call arguments to parameters

    A function with positional-or-keyword parameters [params] (each
    with an optional default) called with positional [args] and keyword
    [kwargs].  Every binding failure is a [TypeError]. *)

Section Call.
Variable V : Type.

Fixpoint lookup_kw (k : string) (kw : list (string * V)) : option V :=
  match kw with
  | [] => None
  | (k', v) :: kw' => if String.eqb k k' then Some v else lookup_kw k kw'
  end.

Definition param_names (params : list (string * option V)) : list string :=
  map fst params.

Definition known_kw (params : list (string * option V)) (k : string) : bool :=
  existsb (String.eqb k) (param_names params).

(** Parameters left over once the positional arguments are consumed
    take their keyword value or their default; a keyword naming a
    parameter already bound by position is an error. *)
Fixpoint bind_rest (params : list (string * option V))
         (kwargs : list (string * V)) : result (list (string * V)) :=
  match params with
  | [] => Ok []
  | (p, dflt) :: ps =>
      v <- match lookup_kw p kwargs, dflt with
           | Some v, _ => Ok v
           | None, Some d => Ok d
           | None, None => Raise TypeError
           end ;;
      r <- bind_rest ps kwargs ;;
      Ok ((p, v) :: r)
  end.

Fixpoint bind_positional (params : list (string * option V)) (args : list V)
         (kwargs : list (string * V)) {struct args} : result (list (string * V)) :=
  match args, params with
  | [], _ => bind_rest params kwargs
  | _ :: _, [] => Raise TypeError
  | a :: args', (p, _) :: ps =>
      match lookup_kw p kwargs with
      | Some _ => Raise TypeError
      | None => r <- bind_positional ps args' kwargs ;; Ok ((p, a) :: r)
      end
  end.

Definition bind_params (params : list (string * option V)) (args : list V)
           (kwargs : list (string * V)) : result (list (string * V)) :=
  if forallb (fun kv => known_kw params (fst kv)) kwargs
  then bind_positional params args kwargs
  else Raise TypeError.
End Call.

(** ** Tensors: a shape and a contiguous row-major buffer *)

Record Tensor (A : Type) : Type := mkTensor { shape : list nat; data : list A }.
Arguments mkTensor {A} shape data.
Arguments shape {A} t.
Arguments data {A} t.

Definition numel (sh : list nat) : nat := fold_right Nat.mul 1 sh.

Definition well_shaped {A} (t : Tensor A) : Prop :=
  length (data t) = numel (shape t).

Section TensorOps.
Variable A : Type.
Variable dflt : A.

(** Row-major enumeration of an index function. *)
Definition tabulate2 (n m : nat) (f : nat -> nat -> A) : list A :=
  concat (map (fun i => map (f i) (seq 0 m)) (seq 0 n)).

Definition tabulate3 (a n m : nat) (f : nat -> nat -> nat -> A) : list A :=
  concat (map (fun b => tabulate2 n m (f b)) (seq 0 a)).

Definition get2 (m : nat) (d : list A) (i j : nat) : A :=
  nth (i * m + j) d dflt.

Definition get3 (n m : nat) (d : list A) (b i j : nat) : A :=
  nth (b * (n * m) + i * m + j) d dflt.

(** The [i]-th block of [w] consecutive elements. *)
Definition block (w : nat) (d : list A) (i : nat) : list A :=
  firstn w (skipn (i * w) d).

(** [t.size(0)] *)
Definition size0 (t : Tensor A) : result nat :=
  match shape t with
  | [] => Raise IndexError
  | n :: _ => Ok n
  end.

(** Python's [len(t)] *)
Definition py_len (t : Tensor A) : result nat :=
  match shape t with
  | [] => Raise TypeError
  | n :: _ => Ok n
  end.

(** [t[i:j]] with non-negative bounds: a slice of the leading axis,
    both bounds clamped to its size. *)
Definition slice0 (i j : nat) (t : Tensor A) : result (Tensor A) :=
  match shape t with
  | [] => Raise IndexError
  | n :: rest =>
      let i' := Nat.min i n in
      let j' := Nat.min j n in
      let w := numel rest in
      Ok (mkTensor ((j' - i') :: rest)
                   (firstn ((j' - i') * w) (skipn (i' * w) (data t))))
  end.

(** [t[0]] *)
Definition index0 (t : Tensor A) : result (Tensor A) :=
  match shape t with
  | [] => Raise IndexError
  | n :: rest =>
      if n =? 0 then Raise IndexError
      else Ok (mkTensor rest (block (numel rest) (data t) 0))
  end.

(** [t[:, k]] (with [min_rank = 2]) and [t[:, k, :]] (with
    [min_rank = 3]): axis 1 is indexed away. *)
Definition select1 (min_rank k : nat) (t : Tensor A) : result (Tensor A) :=
  if length (shape t) <? min_rank then Raise IndexError
  else match shape t with
       | a :: n :: rest =>
           if k <? n then
             let w := numel rest in
             Ok (mkTensor (a :: rest)
                   (concat (map (fun i => block w (data t) (i * n + k)) (seq 0 a))))
           else Raise IndexError
       | _ => Raise IndexError
       end.

(** [t[:, 1:, :]] *)
Definition slice1_from1 (t : Tensor A) : result (Tensor A) :=
  match shape t with
  | a :: n :: d :: rest =>
      let w := numel (d :: rest) in
      Ok (mkTensor (a :: (n - 1) :: d :: rest)
            (concat (map (fun i =>
                            firstn ((n - 1) * w) (skipn ((i * n + 1) * w) (data t)))
                         (seq 0 a))))
  | _ => Raise IndexError
  end.

Definition list_eqb (l1 l2 : list nat) : bool :=
  if list_eq_dec Nat.eq_dec l1 l2 then true else false.

(** [torch.cat(ts, 0)]: a non-empty list of tensors of rank at least
    one that agree on every axis but the first.  On the empty list the
    call fails with an exception whose class the version of torch
    decides ([EmptyCatError]). *)
Fixpoint cat0_from (rest : list nat) (n : nat) (d : list A)
         (ts : list (Tensor A)) : result (Tensor A) :=
  match ts with
  | [] => Ok (mkTensor (n :: rest) d)
  | t :: ts' =>
      match shape t with
      | k :: rest' =>
          if list_eqb rest rest'
          then cat0_from rest (n + k) (d ++ data t) ts'
          else Raise RuntimeError
      | [] => Raise RuntimeError
      end
  end.

Definition cat0 (ts : list (Tensor A)) : result (Tensor A) :=
  match ts with
  | [] => Raise EmptyCatError
  | t :: ts' =>
      match shape t with
      | n :: rest => cat0_from rest n (data t) ts'
      | [] => Raise RuntimeError
      end
  end.

(** [torch.stack(ts, dim=1)]; a [None] among the operands is a
    [TypeError], the empty list and unequal shapes are
    [RuntimeError]s. *)
Fixpoint all_tensors (l : list (option (Tensor A))) : result (list (Tensor A)) :=
  match l with
  | [] => Ok []
  | None :: _ => Raise TypeError
  | Some t :: l' => ts <- all_tensors l' ;; Ok (t :: ts)
  end.

Definition stack1 (l : list (option (Tensor A))) : result (Tensor A) :=
  ts <- all_tensors l ;;
  match ts with
  | [] => Raise RuntimeError
  | t :: _ =>
      if forallb (fun u => list_eqb (shape t) (shape u)) ts then
        match shape t with
        | [] => Raise IndexError
        | a :: rest =>
            let w := numel rest in
            Ok (mkTensor (a :: length ts :: rest)
                  (concat (map (fun i =>
                                  concat (map (fun u => block w (data u) i) ts))
                               (seq 0 a))))
        end
      else Raise RuntimeError
  end.

(** [t.squeeze_()] *)
Definition squeeze (t : Tensor A) : Tensor A :=
  mkTensor (filter (fun n => negb (n =? 1)) (shape t)) (data t).

(** [t.view(b, -1)] *)
Definition view_rows (b : nat) (t : Tensor A) : result (Tensor A) :=
  if b =? 0 then Raise RuntimeError
  else if numel (shape t) mod b =? 0
       then Ok (mkTensor [b; numel (shape t) / b] (data t))
       else Raise RuntimeError.

(** The leading axes and the last two of a shape of rank at least 2. *)
Fixpoint split_last2 (sh : list nat) : option (list nat * nat * nat) :=
  match sh with
  | [] | [_] => None
  | [n; m] => Some ([], n, m)
  | c :: sh' =>
      match split_last2 sh' with
      | Some (pre, n, m) => Some (c :: pre, n, m)
      | None => None
      end
  end.

(** [t.transpose(0, 1)] of a matrix. *)
Definition transpose01 (t : Tensor A) : result (Tensor A) :=
  match shape t with
  | [n; m] => Ok (mkTensor [m; n] (tabulate2 m n (fun i j => get2 m (data t) j i)))
  | [] | [_] => Raise IndexError
  | _ => Raise Unmodelled
  end.

(** [t.transpose(-2, -1)] *)
Definition transpose_last2 (t : Tensor A) : result (Tensor A) :=
  match split_last2 (shape t) with
  | None => Raise IndexError
  | Some (pre, n, m) =>
      Ok (mkTensor (pre ++ [m; n])
            (tabulate3 (numel pre) m n (fun b i j => get3 n m (data t) b j i)))
  end.
End TensorOps.

(** ** Scalars

    The arithmetic the code performs on tensor elements. *)

Class Scalar (F : Type) : Type := {
  fzero : F;
  fof_Z : Z -> F;
  fadd : F -> F -> F;
  fsub : F -> F -> F;
  fmul : F -> F -> F;
  fdiv : F -> F -> F
}.

Section Numeric.
Context {F : Type} {SF : Scalar F}.

Definition fsum (l : list F) : F := fold_left fadd l fzero.

(** Inner product of row [i] of a [_ x k] matrix buffer with row [j]
    of another. *)
Definition dot_rows (k : nat) (q p : list F) (i j : nat) : F :=
  fsum (map (fun t => fmul (get2 fzero k q i t) (get2 fzero k p j t)) (seq 0 k)).

(** [torch.matmul(a, b)] for a matrix [a] and an operand [b] of rank
    at least 2, whose leading axes are batch axes over which [a] is
    broadcast. *)
Definition matmul (a b : Tensor F) : result (Tensor F) :=
  match shape a, split_last2 (shape b) with
  | [n; k], Some (pre, k', m) =>
      if k =? k' then
        Ok (mkTensor (pre ++ [n; m])
              (tabulate3 (numel pre) n m (fun c i j =>
                 fsum (map (fun t => fmul (get2 fzero k (data a) i t)
                                          (get3 fzero k' m (data b) c t j))
                           (seq 0 k)))))
      else Raise RuntimeError
  | _, _ => Raise Unmodelled
  end.

(** [t / x] for a Python float [x] *)
Definition div_scalar (t : Tensor F) (x : F) : Tensor F :=
  mkTensor (shape t) (map (fun v => fdiv v x) (data t)).

Fixpoint zip_with (f : F -> F -> F) (l1 l2 : list F) : list F :=
  match l1, l2 with
  | x :: l1', y :: l2' => f x y :: zip_with f l1' l2'
  | _, _ => []
  end.

(** [a + b] and [a - b] on tensors of one shape (broadcasting between
    different shapes is not covered). *)
Definition pointwise (f : F -> F -> F) (a b : Tensor F) : result (Tensor F) :=
  if list_eqb (shape a) (shape b)
  then Ok (mkTensor (shape a) (zip_with f (data a) (data b)))
  else Raise Unmodelled.

(** [F.normalize(t, dim=-1)], given the library's action [nv] on one
    vector: every block along the last axis is normalised. *)
Definition normalize_last (nv : list F -> list F) (t : Tensor F)
  : result (Tensor F) :=
  match rev (shape t) with
  | [] => Raise IndexError
  | d :: _ =>
      Ok (mkTensor (shape t)
            (concat (map (fun i => nv (block d (data t) i))
                         (seq 0 (numel (removelast (shape t)))))))
  end.
End Numeric.

(** ** Feature batches: a dict from field names to integer tensors *)

Definition Features : Type := list (string * Tensor Z).

Fixpoint lookup_field (k : string) (f : Features) : result (Tensor Z) :=
  match f with
  | [] => Raise KeyError
  | (k', v) :: f' => if String.eqb k k' then Ok v else lookup_field k f'
  end.

(** [range(0, stop, step)] *)
Fixpoint range_up (stop step fuel i : nat) : list nat :=
  match fuel with
  | O => []
  | S fuel' => if i <? stop then i :: range_up stop step fuel' (i + step) else []
  end.

Definition py_range0 (stop : nat) (step : Z) : result (list nat) :=
  if (step =? 0)%Z then Raise ValueError
  else if (step <? 0)%Z then Ok []
       else Ok (range_up stop (Z.to_nat step) stop 0).

(** ** The model classes *)

Section Model.
Context {F : Type} {SF : Scalar F}.

(** The pretrained encoder: a callable on feature batches that yields
    [last_hidden_state], and the vocabulary size of its config. *)
Record Encoder : Type := mkEncoder {
  run : Features -> result (Tensor F);
  config_vocab_size : nat
}.

(** The tokenizer called with [padding=True, truncation=True,
    return_tensors="pt"] on sentences and a [max_length]. *)
Definition Tokenizer : Type := list string -> Z -> Features.

(** The fields of [ModelArguments] that the module reads. *)
Record ModelArguments : Type := mkModelArguments {
  model_path : string;
  tokenizer_path : string;
  train_with_qlora : bool;
  model_with_fp16 : bool;
  train_with_lora : bool;
  lora_modules : list string;
  lora_with_fp16 : bool;
  ma_normlized : bool;
  ma_temperature : F;
  encode_sub_batch_size : option Z
}.

(** Library capabilities, external to the module. *)
Variable from_pretrained : string -> bool -> bool -> Encoder.
Variable tokenizer_from_pretrained : string -> Tokenizer.
Variable get_peft_model : Encoder -> list string -> Encoder.
Variable lora_half : Encoder -> Encoder.
Variable cross_entropy : Tensor F -> list nat -> result F.
Variable info_nce : Tensor F -> Tensor F -> Tensor F -> result F.
Variable normalize_vec : list F -> list F.
Variable topk : Tensor F -> Z -> result (list nat).
Variable cuda_is_available : bool.
Variable cuda_device_count : nat.
Variable half : Encoder -> Encoder.
Variable to_device : Encoder -> bool -> Encoder.
Variable data_parallel : Encoder -> Encoder.

(** The attributes of an [M3DenseEmbedModel] instance. *)
Record M3 : Type := mkM3 {
  model : Encoder;
  tokenizer : Tokenizer;
  vocab_size : nat;
  normlized : bool;
  temperature : F;
  sub_batch_size : option Z
}.

(** The world outside the object: the checkpoints loaded so far. *)
Definition World : Type := list string.

(** [load_model]: the encoder and tokenizer it leaves in [self.model]
    and [self.tokenizer], and the loads it performs. *)
Definition load_model (a : ModelArguments) (w : World)
  : Encoder * Tokenizer * World :=
  let m0 := if train_with_qlora a
            then from_pretrained (model_path a) true false
            else from_pretrained (model_path a) false (model_with_fp16 a) in
  let tk := tokenizer_from_pretrained (tokenizer_path a) in
  let m1 := if train_with_lora a
            then let m := get_peft_model m0 (lora_modules a) in
                 if lora_with_fp16 a then lora_half m else m
            else m0 in
  (m1, tk, w ++ [model_path a; tokenizer_path a]).

(** The body of [M3DenseEmbedModel.__init__]. *)
Definition M3DenseEmbedModel_init (a : ModelArguments) (w : World) : M3 * World :=
  let '(m, tk, w') := load_model a w in
  (mkM3 m tk (config_vocab_size m) (ma_normlized a)
        (if negb (ma_normlized a) then fof_Z 1 else ma_temperature a)
        (encode_sub_batch_size a),
   w').

(** [compute_similarity] *)
Definition compute_similarity (q_reps p_reps : Tensor F) : result (Tensor F) :=
  if length (shape p_reps) =? 2
  then pt <- transpose01 fzero p_reps ;; matmul q_reps pt
  else pt <- transpose_last2 fzero p_reps ;; matmul q_reps pt.

(** [dense_score] *)
Definition dense_score (self : M3) (q_reps p_reps : Tensor F) : result (Tensor F) :=
  sim <- compute_similarity q_reps p_reps ;;
  let scores := div_scalar sim (temperature self) in
  b <- size0 q_reps ;;
  view_rows b scores.

(** [_encode] *)
Definition _encode (self : M3) (features : Features) : result (Tensor F) :=
  last_hidden_state <- run (model self) features ;;
  dense_vecs <- select1 2 0 last_hidden_state ;;
  if normlized self then normalize_last normalize_vec dense_vecs
  else Ok dense_vecs.

(** The dict [sub_features] of one loop iteration of [encode]. *)
Definition sub_features (i end_inx : nat) (features : Features) : result Features :=
  mapM (fun kv => v <- slice0 i end_inx (snd kv) ;; Ok (fst kv, v)) features.

(** [encode] *)
Definition encode (self : M3) (features : option Features)
  : result (option (Tensor F)) :=
  match features with
  | None => Ok None
  | Some features =>
      dense_vecs <-
        match sub_batch_size self with
        | Some s =>
            if negb (s =? -1)%Z then
              mask <- lookup_field "attention_mask" features ;;
              n <- py_len mask ;;
              starts <- py_range0 n s ;;
              all_dense_vecs <-
                mapM (fun i =>
                        let end_inx := Nat.min (i + Z.to_nat s) n in
                        sub <- sub_features i end_inx features ;;
                        _encode self sub) starts ;;
              cat0 all_dense_vecs
            else _encode self features
        | None => _encode self features
        end ;;
      Ok (Some dense_vecs)
  end.

(** [entity_reconstruction_loss] *)
Definition entity_reconstruction_loss (self : M3) (q_dense_vecs p_dense_vecs : Tensor F)
  : result F :=
  nq <- size0 q_dense_vecs ;;
  let idxs := seq 0 nq in
  np <- size0 p_dense_vecs ;;
  if nq =? 0 then Raise ZeroDivisionError
  else
    let targets := map (fun i => i * (np / nq)) idxs in
    dense_scores <- dense_score self q_dense_vecs p_dense_vecs ;;
    cross_entropy dense_scores targets.

(** [kg_embed_loss]; [link_desc] is whatever [encode] returned. *)
Definition kg_embed_loss (self : M3) (head : Tensor F)
           (link_desc : option (Tensor F)) (tail : Tensor F) : result (F * F) :=
  head_pos <- select1 3 0 head ;;
  head_neg <- slice1_from1 head ;;
  tail_pos <- select1 3 0 tail ;;
  tail_neg <- slice1_from1 tail ;;
  match link_desc with
  | None => Raise TypeError
  | Some link_desc =>
      anchor_f <- pointwise fadd head_pos link_desc ;;
      fwd <- info_nce anchor_f tail_pos tail_neg ;;
      anchor_b <- pointwise fsub tail_pos link_desc ;;
      bwd <- info_nce anchor_b head_pos head_neg ;;
      Ok (fwd, bwd)
  end.

(** The values [forward] computes on its way to the loss. *)
Record Step : Type := mkStep {
  st_query : Tensor F;
  st_passage : Tensor F;
  st_loss1 : F;
  st_loss2 : F;
  st_loss3 : F
}.

Definition Group : Type := list (option Features).

Definition encode_group (self : M3) (x : Group) : result (Tensor F) :=
  vs <- mapM (encode self) x ;; stack1 vs.

Definition forward_step (self : M3)
           (inputs : Group * Group * option Features * Group * Group) : result Step :=
  let '(head, head_desc, link_desc, tail, tail_desc) := inputs in
  head <- encode_group self head ;;
  head_desc <- encode_group self head_desc ;;
  tail <- encode_group self tail ;;
  tail_desc <- encode_group self tail_desc ;;
  link_desc <- encode self link_desc ;;
  hq <- select1 3 0 head ;;
  tq <- select1 3 0 tail ;;
  query <- cat0 [hq; tq] ;;
  passage <- cat0 [head_desc; tail_desc] ;;
  loss1 <- entity_reconstruction_loss self query passage ;;
  '(loss2, loss3) <- kg_embed_loss self head link_desc tail ;;
  Ok (mkStep query passage loss1 loss2 loss3).

(** [forward] *)
Definition forward (self : M3)
           (inputs : Group * Group * option Features * Group * Group) : result F :=
  s <- forward_step self inputs ;;
  Ok (fdiv (fadd (fadd (st_loss1 s) (st_loss2 s)) (st_loss3 s)) (fof_Z 3)).

(** *** Calls through Python's argument binding *)

Inductive pyval : Type :=
| PNone
| PBool (b : bool)
| PInt (z : Z)
| PFloat (x : F)
| PStr (s : string)
| PModelArguments (a : ModelArguments)
| PFeatures (f : Features).

(** A call of [encode] with the given positional and keyword
    arguments, for [def encode(self, features=None)] *)
Definition encode_call (self : M3) (args : list pyval)
           (kwargs : list (string * pyval)) : result (option (Tensor F)) :=
  b <- bind_params [("features", Some PNone)] args kwargs ;;
  match lookup_kw "features" b with
  | Some PNone => encode self None
  | Some (PFeatures f) => encode self (Some f)
  | _ => Raise TypeError
  end.

(** A call of [M3DenseEmbedModel.__init__] with the given positional
    and keyword arguments, for
    [def __init__(self, model_args: ModelArguments)] *)
Definition M3DenseEmbedModel_new (args : list pyval)
           (kwargs : list (string * pyval)) (w : World) : result M3 * World :=
  match bind_params [("model_args", None)] args kwargs with
  | Raise e => (Raise e, w)
  | Ok b =>
      match lookup_kw "model_args" b with
      | Some (PModelArguments a) =>
          let '(self, w') := M3DenseEmbedModel_init a w in (Ok self, w')
      | _ => (Raise AttributeError, w)
      end
  end.

(** The device set-up shared by the two inference constructors. *)
Definition place_model (self : M3) (use_fp16 : bool) (device : string) : M3 :=
  let cuda := cuda_is_available && String.eqb device "cuda" in
  let use_fp16 := if cuda then use_fp16 else false in
  let m := if use_fp16 then half (model self) else model self in
  let m := to_device m cuda in
  let m := if 1 <? cuda_device_count then data_parallel m else m in
  mkM3 m (tokenizer self) (vocab_size self) (normlized self)
       (temperature self) (sub_batch_size self).

Definition as_bool (v : pyval) : bool :=
  match v with
  | PNone | PBool false | PInt 0%Z | PStr EmptyString => false
  | _ => true
  end.

Definition as_device (v : pyval) : string :=
  match v with PStr s => s | _ => EmptyString end.

Definition get_arg (k : string) (b : list (string * pyval)) : pyval :=
  match lookup_kw k b with Some v => v | None => PNone end.

(** [M3ForInference.__init__] *)
Definition M3ForInference_new (args : list pyval)
           (kwargs : list (string * pyval)) (w : World) : result M3 * World :=
  match bind_params [("model_load_args", Some PNone);
                     ("normlized", Some (PBool true));
                     ("sentence_pooling_method", Some (PStr "cls"));
                     ("temperature", Some (PFloat (fof_Z 1)));
                     ("use_fp16", Some (PBool true));
                     ("device", Some (PStr "cpu"))] args kwargs with
  | Raise e => (Raise e, w)
  | Ok b =>
      match M3DenseEmbedModel_new []
              [("model_load_args", get_arg "model_load_args" b);
               ("normlized", get_arg "normlized" b);
               ("sentence_pooling_method", get_arg "sentence_pooling_method" b);
               ("temperature", get_arg "temperature" b);
               ("enable_sub_batch", PBool false)] w with
      | (Raise e, w') => (Raise e, w')
      | (Ok self, w') =>
          (Ok (place_model self (as_bool (get_arg "use_fp16" b))
                           (as_device (get_arg "device" b))), w')
      end
  end.

(** An [M3ForScore] instance: the base attributes and its own two. *)
Record M3Score : Type := mkM3Score {
  base : M3;
  batch_size : pyval;
  max_length : Z
}.

(** [M3ForScore.__init__] *)
Definition M3ForScore_new (args : list pyval)
           (kwargs : list (string * pyval)) (w : World) : result M3Score * World :=
  match bind_params [("model_load_args", None);
                     ("normlized", Some (PBool true));
                     ("sentence_pooling_method", Some (PStr "cls"));
                     ("temperature", Some (PFloat (fof_Z 1)));
                     ("use_fp16", Some (PBool true));
                     ("device", Some (PStr "cpu"));
                     ("batch_size", Some (PInt 512))] args kwargs with
  | Raise e => (Raise e, w)
  | Ok b =>
      match M3DenseEmbedModel_new []
              [("model_load_args", get_arg "model_load_args" b);
               ("normlized", get_arg "normlized" b);
               ("sentence_pooling_method", get_arg "sentence_pooling_method" b);
               ("temperature", get_arg "temperature" b);
               ("enable_sub_batch", PBool false)] w with
      | (Raise e, w') => (Raise e, w')
      | (Ok self, w') =>
          (Ok (mkM3Score (place_model self (as_bool (get_arg "use_fp16" b))
                                      (as_device (get_arg "device" b)))
                         (get_arg "batch_size" b) 8192%Z), w')
      end
  end.

(** The [sentences] argument of the embed entry point. *)
Inductive Sentences : Type :=
| OneSentence (s : string)
| ManySentences (l : list string).

(** [M3ForInference.__call__] *)
Definition M3ForInference_call (self : M3) (sentences : Sentences)
           (batch_size : pyval) (max_length : Z) : result (option (Tensor F)) :=
  let '(sentences, batch_size, input_was_string) :=
    match sentences with
    | OneSentence s => ([s], PNone, true)
    | ManySentences l => (l, batch_size, false)
    end in
  let inputs := tokenizer self sentences max_length in
  all_embeddings <- encode_call self [PFeatures inputs; batch_size] [] ;;
  if (input_was_string : bool) then
    match all_embeddings with
    | None => Raise TypeError
    | Some t => e <- index0 t ;; Ok (Some e)
    end
  else Ok all_embeddings.

Definition need_tensor (v : option (Tensor F)) : result (Tensor F) :=
  match v with
  | Some t => Ok t
  | None => Raise AttributeError
  end.

(** [M3ForScore.select_topk] *)
Definition select_topk (self : M3Score) (query : string)
           (documents : list string) (k : Z) : result (list nat) :=
  let query := tokenizer (base self) [query] (max_length self) in
  let documents := tokenizer (base self) documents (max_length self) in
  query <- encode_call (base self) [PFeatures query] [] ;;
  documents <- encode_call (base self) [PFeatures documents; batch_size self] [] ;;
  query <- need_tensor query ;;
  documents <- need_tensor documents ;;
  scores <- dense_score (base self) query documents ;;
  let scores := squeeze scores in
  n <- py_len scores ;;
  topk scores (Z.min k (Z.of_nat n)).

(** A candidate record: a dict from field names to strings. *)
Definition Paragraph : Type := list (string * string).

Definition text_of (item : Paragraph) : result string :=
  match lookup_kw "text" item with
  | Some s => Ok s
  | None => Raise KeyError
  end.

(** [M3ForScore.__call__] *)
Definition M3ForScore_call (self : M3Score) (query : string)
           (paragraphs : list Paragraph) (topk_n : Z) : result (list Paragraph) :=
  texts <- mapM text_of paragraphs ;;
  indices <- select_topk self query texts topk_n ;;
  mapM (fun idx => match nth_error paragraphs idx with
                   | Some p => Ok p
                   | None => Raise IndexError
                   end) indices.
End Model.

(** ** An encoder that is a pure function of each row

    Row [i] of the output depends on row [i] of every input field and
    on nothing else: [enc r t j] is component [j] of the hidden state
    at position [t] for the row [r]. *)

Definition row_view (f : Features) (i : nat) : list (string * list Z) :=
  map (fun kv => (fst kv, block (numel (tl (shape (snd kv)))) (data (snd kv)) i)) f.

Definition per_row_encoder {F : Type} (d : nat)
           (enc : list (string * list Z) -> nat -> nat -> F) (vocab : nat)
  : @Encoder F :=
  mkEncoder
    (fun f =>
       match f with
       | [] => Raise ValueError
       | (_, t) :: _ =>
           match shape t with
           | [b; L] =>
               Ok (mkTensor [b; L; d]
                     (tabulate3 b L d (fun i t j => enc (row_view f i) t j)))
           | _ => Raise ValueError
           end
       end)
    vocab.

(** A feature batch of [b] rows padded to length [L]: every field is a
    [b x L] tensor and the attention mask is among them. *)
Definition wf_features (b L : nat) (f : Features) : Prop :=
  Forall (fun kv => shape (snd kv) = [b; L] /\ well_shaped (snd kv)) f /\
  exists m, lookup_field "attention_mask" f = Ok m.

(** ** Real scalars and the library functions on them *)

#[export] Instance Scalar_R : Scalar R := {
  fzero := 0%R;
  fof_Z := IZR;
  fadd := Rplus;
  fsub := Rminus;
  fmul := Rmult;
  fdiv := Rdiv
}.

Definition l2_norm (v : list R) : R :=
  sqrt (fsum (map (fun x => (x * x)%R) v)).

(** [F.normalize] on one vector: [v / max(norm v, eps)], [eps = 1e-12]. *)
Definition normalize_eps : R := (/ 1000000000000)%R.

Definition normalize_R (v : list R) : list R :=
  map (fun x => (x / Rmax (l2_norm v) normalize_eps)%R) v.

(** [nn.CrossEntropyLoss(reduction='mean')] on a matrix of logits and
    one class index per row. *)
Definition row_nll (c : nat) (d : list R) (i t : nat) : R :=
  (ln (fsum (map exp (block c d i))) - get2 0%R c d i t)%R.

Definition cross_entropy_R (logits : Tensor R) (targets : list nat) : result R :=
  match shape logits with
  | [n; c] =>
      if negb (length targets =? n) then Raise ValueError
      else if forallb (fun t => t <? c) targets
           then Ok (fsum (map (fun it => row_nll c (data logits) (fst it) (snd it))
                              (combine (seq 0 n) targets)) / INR n)%R
           else Raise IndexError
  | _ => Raise Unmodelled
  end.

(** Modelled from the spec: [InfoNCE(negative_mode="paired")] of
    [utils/info_nce.py], which is not among the sources.  Each anchor
    is scored against its positive and against each of its own
    negatives, the scores are scaled by a temperature [tau], and the
    positive is class 0 of a mean-reduced cross-entropy. *)
Definition info_nce_R (tau : R) (query positive negatives : Tensor R) : result R :=
  match shape query, shape positive, shape negatives with
  | [b; d], [b'; d'], [b''; m; d''] =>
      if (b =? b') && (b =? b'') && (d =? d') && (d =? d'') then
        cross_entropy_R
          (mkTensor [b; S m]
             (tabulate2 b (S m) (fun i j =>
                (match j with
                 | O => dot_rows d (data query) (data positive) i i
                 | S j' => dot_rows d (data query) (data negatives) i (i * m + j')
                 end / tau)%R)))
          (repeat 0 b)
      else Raise ValueError
  | _, _, _ => Raise ValueError
  end.

(** ** The lifetime of a model object

    The methods that can be called on an instance once it is built,
    and what each leaves in its attributes. *)

Section Lifetime.
Context {F : Type} {SF : Scalar F}.
Variable from_pretrained : string -> bool -> bool -> @Encoder F.
Variable tokenizer_from_pretrained : string -> Tokenizer.
Variable get_peft_model : @Encoder F -> list string -> @Encoder F.
Variable lora_half : @Encoder F -> @Encoder F.
Variable checkpointing : @Encoder F -> @Encoder F.

Inductive Method : Type :=
| CallGradientCheckpointingEnable
| CallLoadModel (a : @ModelArguments F)
| CallDenseScore
| CallEncode
| CallComputeSimilarity
| CallEntityReconstructionLoss
| CallKgEmbedLoss
| CallForward
| CallSave.

(** Only [load_model] and [gradient_checkpointing_enable] assign to
    an attribute, and both to [self.model] (and [self.tokenizer]). *)
Definition after_call (self : @M3 F) (m : Method) : @M3 F :=
  match m with
  | CallLoadModel a =>
      let '(e, tk, _) :=
        load_model from_pretrained tokenizer_from_pretrained
                   get_peft_model lora_half a [] in
      mkM3 e tk (vocab_size self) (normlized self) (temperature self)
           (sub_batch_size self)
  | CallGradientCheckpointingEnable =>
      mkM3 (checkpointing (model self)) (tokenizer self) (vocab_size self)
           (normlized self) (temperature self) (sub_batch_size self)
  | _ => self
  end.

Definition after_calls (self : @M3 F) (ms : list Method) : @M3 F :=
  fold_left after_call ms self.
End Lifetime.

(** ** What the losses are said to compute, entry by entry *)

Section Described.
Context {F : Type} {SF : Scalar F}.
Variable info_nce : Tensor F -> Tensor F -> Tensor F -> result F.

(** The logits of [b] queries against [m] passages: inner products of
    rows over the temperature. *)
Definition logits_of (self : @M3 F) (b d m : nat) (qd pd : list F) : Tensor F :=
  mkTensor [b; m]
    (map (fun v => fdiv v (temperature self))
         (tabulate2 b m (fun i j => dot_rows d qd pd i j))).

(** The logits [dense_score] yields for [b] queries against [m]
    candidate sets of [N] passages each: row [i] lists the products
    of every query [j] with every passage [k] of set [i], at column
    [j * N + k]. *)
Definition grouped_logits (self : @M3 F) (b m N d : nat) (qd pd : list F) : Tensor F :=
  mkTensor [b; m * N]
    (map (fun v => fdiv v (temperature self))
         (tabulate3 m b N (fun i j k => dot_rows d qd pd j (i * N + k)))).

(** A grouped batch [[b, N, d]] flattened to [[b * N, d]]. *)
Definition flatten_groups (t : Tensor F) : Tensor F :=
  match shape t with
  | [b; N; d] => mkTensor [b * N; d] (data t)
  | _ => t
  end.

(** Of a grouped batch [[b, N, d]]: member 0 of every group, and the
    members from 1 on. *)
Definition positive_of (b N d : nat) (xs : list F) : Tensor F :=
  mkTensor [b; d] (tabulate2 b d (fun i j => get3 fzero N d xs i 0 j)).

Definition negatives_of (b N d : nat) (xs : list F) : Tensor F :=
  mkTensor [b; N - 1; d]
    (tabulate3 b (N - 1) d (fun i k j => get3 fzero N d xs i (S k) j)).

(** forward: anchor [head_pos + link_desc], positive [tail_pos],
    negatives [tail_neg] *)
Definition forward_term (head_pos link_desc tail_pos tail_neg : Tensor F) : result F :=
  anchor <- pointwise fadd head_pos link_desc ;;
  info_nce anchor tail_pos tail_neg.

(** backward: anchor [tail_pos - link_desc], positive [head_pos],
    negatives [head_neg] *)
Definition backward_term (tail_pos link_desc head_pos head_neg : Tensor F) : result F :=
  anchor <- pointwise fsub tail_pos link_desc ;;
  info_nce anchor head_pos head_neg.

(** The anchors of the two directions, entry by entry: row [i] of the
    forward anchor is member 0 of head group [i] plus row [i] of the
    link descriptions; row [i] of the backward anchor is member 0 of
    tail group [i] minus row [i] of the link descriptions. *)
Definition forward_anchor (b N d : nat) (hd ld : list F) : Tensor F :=
  mkTensor [b; d]
    (tabulate2 b d (fun i j => fadd (get3 fzero N d hd i 0 j) (get2 fzero d ld i j))).

Definition backward_anchor (b M d : nat) (td ld : list F) : Tensor F :=
  mkTensor [b; d]
    (tabulate2 b d (fun i j => fsub (get3 fzero M d td i 0 j) (get2 fzero d ld i j))).

(** Two buffers of grouped batches with the same positives. *)
Definition same_positives (b N d : nat) (xs ys : list F) : Prop :=
  forall i j, i < b -> j < d ->
              get3 fzero N d xs i 0 j = get3 fzero N d ys i 0 j.
End Described.

(** ** What one pass over a batch is said to produce, row by row *)

Section EncodedRows.
Context {F : Type}.
Variable d : nat.
Variable enc : list (string * list Z) -> nat -> nat -> F.
Variable normalize_vec : list F -> list F.

(** The embedding of row [i]: the hidden state at position 0,
    normalised when normalisation is on. *)
Definition encoded_row (normlized : bool) (f : Features) (i : nat) : list F :=
  let r := map (fun j => enc (row_view f i) 0 j) (seq 0 d) in
  if normlized then normalize_vec r else r.

Definition encoded_batch (normlized : bool) (b : nat) (f : Features) : Tensor F :=
  mkTensor [b; d] (concat (map (encoded_row normlized f) (seq 0 b))).
End EncodedRows.

(** ** A small concrete model over the reals

    An encoder whose hidden state at position [t], component [j], is
    the token id at [t] plus [j]; used to run the definitions above on
    explicit inputs. *)

Definition demo_ids (r : list (string * list Z)) : list Z :=
  match lookup_kw "input_ids" r with
  | Some l => l
  | None => []
  end.

Definition demo_enc (r : list (string * list Z)) (t j : nat) : R :=
  IZR (nth t (demo_ids r) 0%Z + Z.of_nat j).

Definition demo_batch (ids : list Z) : Features :=
  [("input_ids", mkTensor [length ids; 1] ids);
   ("attention_mask", mkTensor [length ids; 1] (map (fun _ => 1%Z) ids))].

Definition demo_tokenizer : Tokenizer :=
  fun sentences _ => demo_batch (map (fun x => Z.of_nat (String.length x)) sentences).

Definition demo_model (nz : bool) (sbs : option Z) : @M3 R :=
  mkM3 (per_row_encoder 2 demo_enc 10) demo_tokenizer 10 nz 1%R sbs.

(** The same with hidden size 1: the embedding of a row is its first
    token id. *)
Definition scalar_model (nz : bool) : @M3 R :=
  mkM3 (per_row_encoder 1 demo_enc 10) demo_tokenizer 10 nz 1%R None.

(** ** Vectors along the feature axis *)

Definition n_rows {A} (t : Tensor A) : nat := numel (removelast (shape t)).

Definition row_of {A} (t : Tensor A) (i : nat) : list A :=
  block (last (shape t) 0) (data t) i.

(** A training step on one row with groups of two: head ids 0 (and 9),
    tail ids 1 (and 9), head descriptions 0 and 0, tail descriptions 1
    and 0, link description 2. *)
Definition step_inputs : Group * Group * option Features * Group * Group :=
  ([Some (demo_batch [0%Z]); Some (demo_batch [9%Z])],
   [Some (demo_batch [0%Z]); Some (demo_batch [0%Z])],
   Some (demo_batch [2%Z]),
   [Some (demo_batch [1%Z]); Some (demo_batch [9%Z])],
   [Some (demo_batch [1%Z]); Some (demo_batch [0%Z])]).

(** The opposite of a link description. *)
Definition negate (t : Tensor R) : Tensor R :=
  mkTensor (shape t) (map Ropp (data t)).

(** The number of chunks of size [s] that cover [n] rows. *)
Definition ceil_div (n s : nat) : nat := (n + s - 1) / s.

(** One iteration of the loop of [encode]: the rows from [i] on, at
    most [s] of them, are cut out and encoded. *)
Definition encode_chunk_at {F : Type} (normalize_vec : list F -> list F)
           (self : @M3 F) (features : Features) (s n i : nat) : result (Tensor F) :=
  sub <- sub_features i (Nat.min (i + s) n) features ;;
  _encode normalize_vec self sub.

(** An encoder that fails on any batch holding a negative token id and
    otherwise embeds a row as its first token id. *)
Definition fragile_encoder : @Encoder R :=
  mkEncoder
    (fun f =>
       ids <- lookup_field "input_ids" f ;;
       if existsb (fun z => (z <? 0)%Z) (data ids) then Raise RuntimeError
       else run (per_row_encoder 1 demo_enc 10) f)
    10.

Definition fragile_model (sbs : option Z) : @M3 R :=
  mkM3 fragile_encoder demo_tokenizer 10 false 1%R sbs.

(** A group of feature batches of [b] rows each, none absent, every one
    padded to some positive length. *)
Definition wf_group (b : nat) (fs : list Features) : Prop :=
  fs <> [] /\
  Forall (fun f => exists L, wf_features b L f /\ 0 < L) fs.

(** The settings of the sub-batch size under which [encode] covers a
    batch of [b] rows. *)
Definition sub_batch_setting {F : Type} (self : @M3 F) (b : nat) : Prop :=
  sub_batch_size self = None \/ sub_batch_size self = Some (-1)%Z \/
  (exists s, sub_batch_size self = Some s /\ (0 < s)%Z /\ 0 < b).

(** * Properties *)

(** ** Argument binding *)

Section CallFacts.
Variable V : Type.

Lemma bind_rest_TypeError (params : list (string * option V)) kwargs e :
  bind_rest params kwargs = Raise e -> e = TypeError.
Proof.
  revert e; induction params as [|[p d] ps IH]; intros e; simpl.
  - discriminate.
  - destruct (lookup_kw p kwargs) as [v|]; [|destruct d as [v|]]; simpl;
      try (intros H; injection H; auto; fail);
      destruct (bind_rest ps kwargs) as [r|e'] eqn:E; simpl;
      try discriminate; intros H; injection H as <-; eauto.
Qed.

Lemma bind_positional_TypeError (params : list (string * option V)) args kwargs e :
  bind_positional params args kwargs = Raise e -> e = TypeError.
Proof.
  revert params e; induction args as [|a args IH]; intros params e.
  - destruct params; apply bind_rest_TypeError.
  - destruct params as [|[p d] ps]; simpl.
    + intros H; injection H; auto.
    + destruct (lookup_kw p kwargs).
      * intros H; injection H; auto.
      * destruct (bind_positional ps args kwargs) as [r|e'] eqn:E; simpl;
          try discriminate. intros H; injection H as <-; eauto.
Qed.

(** Whatever goes wrong when arguments are bound is a [TypeError]. *)
Lemma bind_params_TypeError (params : list (string * option V)) args kwargs e :
  bind_params params args kwargs = Raise e -> e = TypeError.
Proof.
  unfold bind_params.
  destruct (forallb _ kwargs).
  - apply bind_positional_TypeError.
  - intros H; injection H; auto.
Qed.

(** More positional arguments than parameters cannot be bound. *)
Lemma bind_positional_too_many (params : list (string * option V)) args kwargs :
  length params < length args ->
  bind_positional params args kwargs = Raise TypeError.
Proof.
  revert params; induction args as [|a args IH]; intros params Hlen;
    simpl in Hlen; [lia|].
  destruct params as [|[p d] ps]; simpl; auto.
  destruct (lookup_kw p kwargs); auto.
  rewrite IH by (simpl in Hlen; lia). reflexivity.
Qed.
End CallFacts.

(** ** The entry points and the way they are called *)

Section EntryPoints.
Context {F : Type} {SF : Scalar F}.
Variable from_pretrained : string -> bool -> bool -> @Encoder F.
Variable tokenizer_from_pretrained : string -> Tokenizer.
Variable get_peft_model : @Encoder F -> list string -> @Encoder F.
Variable lora_half : @Encoder F -> @Encoder F.
Variable normalize_vec : list F -> list F.
Variable topk : Tensor F -> Z -> result (list nat).
Variable cuda_is_available : bool.
Variable cuda_device_count : nat.
Variable half : @Encoder F -> @Encoder F.
Variable to_device : @Encoder F -> bool -> @Encoder F.
Variable data_parallel : @Encoder F -> @Encoder F.

(** [encode] takes one argument besides [self]. *)
Lemma encode_call_two_args (self : M3) (x y : pyval) :
  encode_call normalize_vec self [x; y] [] = Raise TypeError.
Proof. reflexivity. Qed.

(** The base constructor does not know the keywords that the two
    inference constructors hand to it. *)
Lemma base_new_rejects_keywords (v1 v2 v3 v4 v5 : @pyval F) (w : World) :
  M3DenseEmbedModel_new from_pretrained tokenizer_from_pretrained
    get_peft_model lora_half []
    [("model_load_args", v1); ("normlized", v2);
     ("sentence_pooling_method", v3); ("temperature", v4);
     ("enable_sub_batch", v5)] w
  = (Raise TypeError, w).
Proof. reflexivity. Qed.

(** C9. [encode] called without features, whether the argument is
    left out or is [None], returns [None] and raises nothing. *)
Theorem encode_absent_is_noop (self : M3) :
  encode normalize_vec self None = Ok None /\
  encode_call normalize_vec self [] [] = Ok None /\
  encode_call normalize_vec self [PNone] [] = Ok None /\
  encode_call normalize_vec self [] [("features", PNone)] = Ok None.
Proof. repeat split. Qed.

(** C10. Whatever arguments they are given, the constructors of
    [M3ForInference] and [M3ForScore] raise [TypeError] and leave the
    world as it was: no checkpoint has been loaded. *)
Theorem inference_constructors_raise
        (args : list pyval) (kwargs : list (string * pyval)) (w : World) :
  M3ForInference_new from_pretrained tokenizer_from_pretrained get_peft_model
    lora_half cuda_is_available cuda_device_count half to_device data_parallel
    args kwargs w = (Raise TypeError, w) /\
  M3ForScore_new from_pretrained tokenizer_from_pretrained get_peft_model
    lora_half cuda_is_available cuda_device_count half to_device data_parallel
    args kwargs w = (Raise TypeError, w).
Proof.
  split.
  - unfold M3ForInference_new.
    destruct (bind_params _ args kwargs) as [b|e] eqn:E.
    + rewrite base_new_rejects_keywords. reflexivity.
    + apply bind_params_TypeError in E. subst e. reflexivity.
  - unfold M3ForScore_new.
    destruct (bind_params _ args kwargs) as [b|e] eqn:E.
    + rewrite base_new_rejects_keywords. reflexivity.
    + apply bind_params_TypeError in E. subst e. reflexivity.
Qed.

(** C8. The embed entry point raises [TypeError] on every input, a
    single string or a list: it calls [encode] with two arguments. *)
Theorem inference_call_raises (self : M3) (sentences : Sentences)
        (batch_size : pyval) (max_length : Z) :
  M3ForInference_call normalize_vec self sentences batch_size max_length
  = Raise TypeError.
Proof.
  unfold M3ForInference_call. destruct sentences; reflexivity.
Qed.

(** C7. [select_topk] returns no indices on any input: once the query
    is encoded, encoding the documents raises [TypeError], [encode]
    being called with two arguments; an error of the first [encode]
    call is passed on. *)
Theorem select_topk_raises (self : M3Score) (query : string)
        (documents : list string) (k : Z) :
  select_topk normalize_vec topk self query documents k =
  match encode_call normalize_vec (base self)
          [PFeatures (tokenizer (base self) [query] (max_length self))] [] with
  | Ok _ => Raise TypeError
  | Raise e => Raise e
  end.
Proof.
  unfold select_topk.
  destruct (encode_call normalize_vec (base self) [PFeatures _] []); reflexivity.
Qed.
End EntryPoints.

(** ** Buffers enumerated from index functions *)

Section BufferFacts.
Variable A : Type.
Variable dflt : A.

Lemma length_concat_uniform (w : nat) (ls : list (list A)) :
  Forall (fun l => length l = w) ls -> length (concat ls) = length ls * w.
Proof.
  induction 1 as [|l ls Hl _ IH]; simpl; auto.
  rewrite length_app, IH, Hl. reflexivity.
Qed.

Lemma skipn_concat_uniform (w : nat) (ls : list (list A)) (i : nat) :
  Forall (fun l => length l = w) ls ->
  skipn (i * w) (concat ls) = concat (skipn i ls).
Proof.
  intros H; revert i; induction H as [|l ls Hl _ IH]; intros i.
  - destruct i; simpl; rewrite ?skipn_nil; reflexivity.
  - destruct i as [|i]; simpl; auto.
    rewrite skipn_app, Hl.
    replace (w + i * w - w) with (i * w) by lia.
    rewrite skipn_all2 by lia. simpl. apply IH.
Qed.

Lemma firstn_concat_uniform (w : nat) (ls : list (list A)) (k : nat) :
  Forall (fun l => length l = w) ls ->
  firstn (k * w) (concat ls) = concat (firstn k ls).
Proof.
  intros H; revert k; induction H as [|l ls Hl _ IH]; intros k.
  - destruct k; simpl; rewrite ?firstn_nil; reflexivity.
  - destruct k as [|k]; simpl; auto.
    rewrite firstn_app, Hl.
    replace (w + k * w - w) with (k * w) by lia.
    rewrite firstn_all2 by lia. f_equal. apply IH.
Qed.

(** A block of a concatenation of lists of one length is one of the
    lists. *)
Lemma block_concat_uniform (w : nat) (ls : list (list A)) (i : nat) :
  Forall (fun l => length l = w) ls -> i < length ls ->
  block w (concat ls) i = nth i ls [].
Proof.
  intros H Hi. unfold block. rewrite skipn_concat_uniform by assumption.
  revert i Hi; induction H as [|l ls Hl _ IH]; intros i Hi; simpl in Hi; [lia|].
  destruct i as [|i]; simpl.
  - rewrite firstn_app, Hl, Nat.sub_diag, firstn_all2 by lia.
    simpl. apply app_nil_r.
  - apply IH. lia.
Qed.

Lemma nth_concat_uniform (w : nat) (ls : list (list A)) (i j : nat) :
  Forall (fun l => length l = w) ls -> i < length ls -> j < w ->
  nth (i * w + j) (concat ls) dflt = nth j (nth i ls []) dflt.
Proof.
  intros H; revert i; induction H as [|l ls Hl _ IH]; intros i Hi Hj;
    simpl in Hi; [lia|].
  destruct i as [|i]; simpl.
  - rewrite app_nth1 by lia. reflexivity.
  - rewrite app_nth2 by lia.
    replace (w + i * w + j - length l) with (i * w + j) by lia.
    apply IH; lia.
Qed.

Lemma rows_uniform (n m : nat) (f : nat -> nat -> A) :
  Forall (fun l => length l = m) (map (fun i => map (f i) (seq 0 m)) (seq 0 n)).
Proof.
  apply Forall_forall. intros l Hl. apply in_map_iff in Hl.
  destruct Hl as [i [<- _]]. rewrite length_map, length_seq. reflexivity.
Qed.

Lemma nth_map_seq (B : Type) (g : nat -> B) (d : B) (n i : nat) :
  i < n -> nth i (map g (seq 0 n)) d = g i.
Proof.
  intros Hi. rewrite nth_indep with (d' := g 0) by (rewrite length_map, length_seq; lia).
  rewrite map_nth with (d := 0). rewrite seq_nth by lia. reflexivity.
Qed.

Lemma length_tabulate2 (n m : nat) (f : nat -> nat -> A) :
  length (tabulate2 n m f) = n * m.
Proof.
  unfold tabulate2. rewrite (length_concat_uniform (rows_uniform n m f)).
  rewrite length_map, length_seq. reflexivity.
Qed.

Lemma nth_tabulate2 (n m : nat) (f : nat -> nat -> A) (i j : nat) :
  i < n -> j < m -> nth (i * m + j) (tabulate2 n m f) dflt = f i j.
Proof.
  intros Hi Hj. unfold tabulate2.
  rewrite (nth_concat_uniform (rows_uniform n m f))
    by (rewrite ?length_map, ?length_seq; lia).
  rewrite nth_map_seq by lia. apply nth_map_seq. lia.
Qed.

Lemma block_tabulate2 (n m : nat) (f : nat -> nat -> A) (i : nat) :
  i < n -> block m (tabulate2 n m f) i = map (f i) (seq 0 m).
Proof.
  intros Hi. unfold tabulate2.
  rewrite (block_concat_uniform (rows_uniform n m f))
    by (rewrite ?length_map, ?length_seq; lia).
  apply nth_map_seq. lia.
Qed.

Lemma tabulate2_ext (n m : nat) (f g : nat -> nat -> A) :
  (forall i j, i < n -> j < m -> f i j = g i j) ->
  tabulate2 n m f = tabulate2 n m g.
Proof.
  intros H. unfold tabulate2. f_equal. apply map_ext_in. intros i Hi.
  apply in_seq in Hi. apply map_ext_in. intros j Hj. apply in_seq in Hj.
  apply H; lia.
Qed.

Lemma planes_uniform (a n m : nat) (f : nat -> nat -> nat -> A) :
  Forall (fun l => length l = n * m) (map (fun b => tabulate2 n m (f b)) (seq 0 a)).
Proof.
  apply Forall_forall. intros l Hl. apply in_map_iff in Hl.
  destruct Hl as [i [<- _]]. apply length_tabulate2.
Qed.

Lemma length_tabulate3 (a n m : nat) (f : nat -> nat -> nat -> A) :
  length (tabulate3 a n m f) = a * (n * m).
Proof.
  unfold tabulate3. rewrite (length_concat_uniform (planes_uniform a n m f)).
  rewrite length_map, length_seq. reflexivity.
Qed.

Lemma nth_tabulate3 (a n m : nat) (f : nat -> nat -> nat -> A) (b i j : nat) :
  b < a -> i < n -> j < m ->
  nth (b * (n * m) + i * m + j) (tabulate3 a n m f) dflt = f b i j.
Proof.
  intros Hb Hi Hj. unfold tabulate3.
  rewrite <- Nat.add_assoc.
  rewrite (nth_concat_uniform (planes_uniform a n m f))
    by (rewrite ?length_map, ?length_seq; nia).
  rewrite nth_map_seq by lia. apply nth_tabulate2; lia.
Qed.

Lemma tabulate3_ext (a n m : nat) (f g : nat -> nat -> nat -> A) :
  (forall b i j, b < a -> i < n -> j < m -> f b i j = g b i j) ->
  tabulate3 a n m f = tabulate3 a n m g.
Proof.
  intros H. unfold tabulate3. f_equal. apply map_ext_in. intros b Hb.
  apply in_seq in Hb. apply tabulate2_ext. intros; apply H; lia.
Qed.

Lemma tabulate3_one (n m : nat) (f : nat -> nat -> nat -> A) :
  tabulate3 1 n m f = tabulate2 n m (f 0).
Proof. unfold tabulate3. simpl. apply app_nil_r. Qed.
End BufferFacts.

(** ** Similarity and scores *)

Section Similarity.
Context {F : Type} {SF : Scalar F}.

Lemma similarity_2d (b d m : nat) (qd pd : list F) :
  compute_similarity (mkTensor [b; d] qd) (mkTensor [m; d] pd)
  = Ok (mkTensor [b; m] (tabulate2 b m (fun i j => dot_rows d qd pd i j))).
Proof.
  unfold compute_similarity, transpose01, matmul; simpl.
  rewrite Nat.eqb_refl. rewrite tabulate3_one. do 2 f_equal.
  apply tabulate2_ext. intros i j Hi Hj. unfold dot_rows. f_equal.
  apply map_ext_in. intros t Ht. apply in_seq in Ht. f_equal.
  unfold get3, get2. simpl. apply nth_tabulate2; lia.
Qed.

Lemma similarity_3d (b d c n : nat) (qd pd : list F) :
  compute_similarity (mkTensor [b; d] qd) (mkTensor [c; n; d] pd)
  = Ok (mkTensor [c; b; n]
          (tabulate3 c b n (fun i j k => dot_rows d qd pd j (i * n + k)))).
Proof.
  unfold compute_similarity, transpose_last2, matmul; simpl.
  rewrite Nat.eqb_refl. simpl. rewrite Nat.mul_1_r. do 2 f_equal.
  apply tabulate3_ext. intros i j k Hi Hj Hk. unfold dot_rows. f_equal.
  apply map_ext_in. intros t Ht. apply in_seq in Ht. f_equal.
  unfold get3 at 1. rewrite nth_tabulate3 by lia.
  unfold get3, get2. f_equal. lia.
Qed.

(** C5 (amended). For [Q] of shape [[b, d]]: against a matrix [P] of
    [m] rows the similarity is the [[b, m]] matrix of inner products
    of rows, entry [(i, j)] being [Q_i . P_j]; against a 3-D [P] of
    shape [[c, n, d]] it is the [[c, b, n]] tensor whose entry
    [(i, j, k)] is [Q_j . P_i[k]] (every query against every
    candidate set), of which the slices [(i, i, _)] are the products
    of each query with its own set. *)
Theorem similarity_shapes (b d m c n : nat) (qd pd : list F) :
  compute_similarity (mkTensor [b; d] qd) (mkTensor [m; d] pd)
  = Ok (mkTensor [b; m] (tabulate2 b m (fun i j => dot_rows d qd pd i j))) /\
  compute_similarity (mkTensor [b; d] qd) (mkTensor [c; n; d] pd)
  = Ok (mkTensor [c; b; n]
          (tabulate3 c b n (fun i j k => dot_rows d qd pd j (i * n + k)))).
Proof. split; [apply similarity_2d|apply similarity_3d]. Qed.
End Similarity.

(** C5, as stated, fails: two queries [[1], [2]] against the candidate
    sets [[[3]], [[4]]] give a [[2, 2, 1]] tensor, not a [[2, 1]]
    matrix. *)
Lemma similarity_3d_not_rowwise :
  exists r,
    compute_similarity (mkTensor [2; 1] [1; 2]%R) (mkTensor [2; 1; 1] [3; 4]%R) = Ok r /\
    shape r = [2; 2; 1] /\ shape r <> [2; 1].
Proof.
  eexists. split; [apply similarity_3d|]. split; [reflexivity|discriminate].
Qed.

(** ** The retrieval loss *)

Section Retrieval.
Context {F : Type} {SF : Scalar F}.
Variable cross_entropy : Tensor F -> list nat -> result F.

Lemma view_rows_matrix (b m : nat) (xs : list F) :
  0 < b -> view_rows b (mkTensor [b; m] xs) = Ok (mkTensor [b; m] xs).
Proof.
  intros Hb. unfold view_rows; simpl.
  destruct (Nat.eqb_spec b 0); [lia|].
  rewrite Nat.mul_1_r, (Nat.mul_comm b m), Nat.Div0.mod_mul, Nat.div_mul by lia.
  reflexivity.
Qed.

Lemma dense_score_2d (self : M3) (b d m : nat) (qd pd : list F) :
  0 < b ->
  dense_score self (mkTensor [b; d] qd) (mkTensor [m; d] pd)
  = Ok (logits_of self b d m qd pd).
Proof.
  intros Hb. unfold dense_score. rewrite similarity_2d. simpl.
  unfold div_scalar; simpl. apply view_rows_matrix. assumption.
Qed.

Lemma entity_reconstruction_loss_rows (self : M3) (b r d : nat) (qd pd : list F) :
  0 < b ->
  entity_reconstruction_loss cross_entropy self
    (mkTensor [b; d] qd) (mkTensor [b * r; d] pd)
  = cross_entropy (logits_of self b d (b * r) qd pd)
                  (map (fun i => i * r) (seq 0 b)).
Proof.
  intros Hb. unfold entity_reconstruction_loss; simpl.
  destruct (Nat.eqb_spec b 0); [lia|].
  rewrite dense_score_2d by assumption. simpl.
  rewrite (Nat.mul_comm b r), Nat.div_mul by lia. reflexivity.
Qed.

(** C3. For [b > 0] queries and [b * r] passages in a matrix, the
    loss is the library's mean cross-entropy of the [[b, b * r]]
    score matrix against the targets [0, r, 2r, ..., (b-1) r]: the
    target of query row [i] is passage [i * r]. *)
Theorem entity_reconstruction_loss_targets
        (self : M3) (b r d : nat) (qd pd : list F) :
  0 < b ->
  dense_score self (mkTensor [b; d] qd) (mkTensor [b * r; d] pd)
  = Ok (logits_of self b d (b * r) qd pd) /\
  entity_reconstruction_loss cross_entropy self
    (mkTensor [b; d] qd) (mkTensor [b * r; d] pd)
  = cross_entropy (logits_of self b d (b * r) qd pd)
                  (map (fun i => i * r) (seq 0 b)).
Proof.
  intros Hb. split; [apply dense_score_2d; assumption|].
  apply entity_reconstruction_loss_rows. assumption.
Qed.

(** With no query row the quotient of the two batch sizes does not
    exist. *)
Lemma entity_reconstruction_loss_no_query (self : M3) (d m : nat) (qd pd : list F) :
  entity_reconstruction_loss cross_entropy self
    (mkTensor [0; d] qd) (mkTensor (m :: [d]) pd)
  = Raise ZeroDivisionError.
Proof. reflexivity. Qed.
End Retrieval.

(** ** Slices of a well-shaped buffer, entry by entry *)

Section SliceFacts.
Variable A : Type.
Variable dflt : A.

Lemma tabulate2_of_buffer (n m : nat) (l : list A) :
  length l = n * m ->
  l = tabulate2 n m (fun i j => nth (i * m + j) l dflt).
Proof.
  intros Hl. apply nth_ext with (d := dflt) (d' := dflt).
  - rewrite length_tabulate2. assumption.
  - intros p Hp. rewrite Hl in Hp.
    assert (Hm : m <> 0) by (intros ->; lia).
    pose proof (Nat.div_mod_eq p m) as Hpm.
    pose proof (Nat.mod_upper_bound p m Hm) as Hlt.
    assert (Hq : p / m < n) by (apply Nat.Div0.div_lt_upper_bound; lia).
    replace p with (p / m * m + p mod m) at 2 by lia.
    rewrite nth_tabulate2 by assumption. f_equal. lia.
Qed.

Lemma firstn_skipn_tabulate (s n m : nat) (xs : list A) :
  s + n * m <= length xs ->
  firstn (n * m) (skipn s xs)
  = tabulate2 n m (fun k j => nth (s + (k * m + j)) xs dflt).
Proof.
  intros Hlen.
  assert (Hl : length (firstn (n * m) (skipn s xs)) = n * m)
    by (rewrite length_firstn, length_skipn; lia).
  rewrite (@tabulate2_of_buffer _ _ _ Hl) at 1.
  apply tabulate2_ext. intros k j Hk Hj.
  rewrite nth_firstn.
  destruct (Nat.ltb_spec (k * m + j) (n * m)); [|nia].
  apply nth_skipn.
Qed.

Lemma block_entries (w : nat) (xs : list A) (i : nat) :
  (i + 1) * w <= length xs ->
  block w xs i = map (fun j => nth (i * w + j) xs dflt) (seq 0 w).
Proof.
  intros Hlen. unfold block.
  replace w with (1 * w) at 1 by lia.
  rewrite firstn_skipn_tabulate by lia.
  unfold tabulate2. simpl. rewrite app_nil_r. reflexivity.
Qed.

(** [t[:, 0, :]] of a well-shaped [[b, N, d]] tensor, entry by entry. *)
Lemma select_first_entries (b N d : nat) (xs : list A) :
  0 < N -> length xs = b * (N * d) ->
  select1 3 0 (mkTensor [b; N; d] xs)
  = Ok (mkTensor [b; d] (tabulate2 b d (fun i j => get3 dflt N d xs i 0 j))).
Proof.
  intros HN Hlen. unfold select1; simpl.
  destruct (Nat.ltb_spec 0 N); [|lia].
  do 2 f_equal. unfold tabulate2. f_equal.
  apply map_ext_in. intros i Hi. apply in_seq in Hi.
  rewrite Nat.mul_1_r.
  assert (Hrow : (i * N + 0 + 1) * d <= length xs).
  { rewrite Hlen, Nat.mul_assoc. apply Nat.mul_le_mono_r. nia. }
  rewrite block_entries by assumption.
  apply map_ext. intros j. unfold get3. f_equal. lia.
Qed.

(** [t[:, 1:, :]] of a well-shaped [[b, N, d]] tensor, entry by entry. *)
Lemma slice_rest_entries (b N d : nat) (xs : list A) :
  0 < N -> length xs = b * (N * d) ->
  slice1_from1 (mkTensor [b; N; d] xs)
  = Ok (mkTensor [b; N - 1; d]
          (tabulate3 b (N - 1) d (fun i k j => get3 dflt N d xs i (S k) j))).
Proof.
  intros HN Hlen. unfold slice1_from1; simpl.
  do 2 f_equal. unfold tabulate3. f_equal.
  apply map_ext_in. intros i Hi. apply in_seq in Hi.
  rewrite Nat.mul_1_r.
  assert (Hrow : (i * N + 1) * d + (N - 1) * d <= length xs).
  { rewrite Hlen, Nat.mul_assoc, <- Nat.mul_add_distr_r.
    apply Nat.mul_le_mono_r. nia. }
  rewrite firstn_skipn_tabulate by assumption.
  apply tabulate2_ext. intros k j Hk Hj. unfold get3. f_equal. lia.
Qed.
End SliceFacts.

(** ** The relational loss *)

Section Relational.
Context {F : Type} {SF : Scalar F}.
Variable info_nce : Tensor F -> Tensor F -> Tensor F -> result F.

Lemma kg_embed_loss_terms (self : M3) (b N M d : nat) (hd td : list F)
      (link : Tensor F) :
  0 < N -> 0 < M -> length hd = b * (N * d) -> length td = b * (M * d) ->
  kg_embed_loss info_nce self
    (mkTensor [b; N; d] hd) (Some link) (mkTensor [b; M; d] td)
  = (fwd <- forward_term info_nce (positive_of b N d hd) link
                         (positive_of b M d td) (negatives_of b M d td) ;;
     bwd <- backward_term info_nce (positive_of b M d td) link
                          (positive_of b N d hd) (negatives_of b N d hd) ;;
     Ok (fwd, bwd)).
Proof.
  intros HN HM Hh Ht. unfold kg_embed_loss.
  rewrite (@select_first_entries _ fzero _ _ _ _ HN Hh).
  rewrite (@slice_rest_entries _ fzero _ _ _ _ HN Hh).
  rewrite (@select_first_entries _ fzero _ _ _ _ HM Ht).
  rewrite (@slice_rest_entries _ fzero _ _ _ _ HM Ht).
  simpl. unfold forward_term, backward_term, positive_of, negatives_of.
  destruct (pointwise fadd _ link); simpl; auto.
  destruct (info_nce _ _ _); simpl; auto.
  destruct (pointwise fsub _ link); simpl; auto.
Qed.

Lemma positive_of_same (b N d : nat) (xs ys : list F) :
  same_positives b N d xs ys -> positive_of b N d xs = positive_of b N d ys.
Proof.
  intros H. unfold positive_of. f_equal. apply tabulate2_ext. exact H.
Qed.

Lemma zip_with_app (f : F -> F -> F) (a1 a2 b1 b2 : list F) :
  length a1 = length b1 ->
  zip_with f (a1 ++ a2) (b1 ++ b2) = zip_with f a1 b1 ++ zip_with f a2 b2.
Proof.
  revert b1; induction a1 as [|x a1 IH]; intros [|y b1] Hlen; simpl in *;
    try discriminate; auto.
  rewrite IH by lia. reflexivity.
Qed.

Lemma zip_with_map (A : Type) (f : F -> F -> F) (g h : A -> F) (l : list A) :
  zip_with f (map g l) (map h l) = map (fun x => f (g x) (h x)) l.
Proof. induction l as [|x l IH]; simpl; auto. rewrite IH. reflexivity. Qed.

Lemma zip_with_tabulate2 (f : F -> F -> F) (b d : nat) (g h : nat -> nat -> F) :
  zip_with f (tabulate2 b d g) (tabulate2 b d h)
  = tabulate2 b d (fun i j => f (g i j) (h i j)).
Proof.
  unfold tabulate2. induction (seq 0 b) as [|i l IH]; simpl; auto.
  rewrite zip_with_app by (rewrite !length_map; reflexivity).
  rewrite zip_with_map, IH. reflexivity.
Qed.

(** Adding or subtracting a well-shaped [[b, d]] batch, entry by entry. *)
Lemma pointwise_entries (f : F -> F -> F) (b d : nat) (g : nat -> nat -> F)
      (ld : list F) :
  length ld = b * d ->
  pointwise f (mkTensor [b; d] (tabulate2 b d g)) (mkTensor [b; d] ld)
  = Ok (mkTensor [b; d] (tabulate2 b d (fun i j => f (g i j) (get2 fzero d ld i j)))).
Proof.
  intros Hlen. unfold pointwise; cbn [shape data].
  unfold list_eqb. destruct (list_eq_dec Nat.eq_dec [b; d] [b; d]); [|congruence].
  rewrite (@tabulate2_of_buffer _ fzero b d ld Hlen) at 1.
  rewrite zip_with_tabulate2. reflexivity.
Qed.

(** C4. On grouped batches [head], [tail] with at least one member per
    group and a [[b, d]] batch of link descriptions, [kg_embed_loss]
    returns the pair of the forward term, InfoNCE on the anchor whose
    entry [(i, j)] is [head[i, 0, j] + link_desc[i, j]] with positive
    [tail[:, 0, :]] and negatives [tail[:, 1:, :]], and the backward
    term, InfoNCE on the anchor whose entry [(i, j)] is
    [tail[i, 0, j] - link_desc[i, j]] with positive [head[:, 0, :]] and
    negatives [head[:, 1:, :]]; a tail batch with other negatives leaves
    the backward loss as it was, a head batch with other negatives
    leaves the forward loss as it was. *)
Theorem kg_embed_loss_directions (self : M3) (b N M d : nat) (hd td ld : list F) :
  0 < N -> 0 < M ->
  length hd = b * (N * d) -> length td = b * (M * d) -> length ld = b * d ->
  kg_embed_loss info_nce self
    (mkTensor [b; N; d] hd) (Some (mkTensor [b; d] ld)) (mkTensor [b; M; d] td)
  = (fwd <- info_nce (forward_anchor b N d hd ld)
                     (positive_of b M d td) (negatives_of b M d td) ;;
     bwd <- info_nce (backward_anchor b M d td ld)
                     (positive_of b N d hd) (negatives_of b N d hd) ;;
     Ok (fwd, bwd)) /\
  (forall td' fwd bwd fwd' bwd',
      length td' = b * (M * d) -> same_positives b M d td' td ->
      kg_embed_loss info_nce self
        (mkTensor [b; N; d] hd) (Some (mkTensor [b; d] ld)) (mkTensor [b; M; d] td)
      = Ok (fwd, bwd) ->
      kg_embed_loss info_nce self
        (mkTensor [b; N; d] hd) (Some (mkTensor [b; d] ld)) (mkTensor [b; M; d] td')
      = Ok (fwd', bwd') ->
      bwd' = bwd) /\
  (forall hd' fwd bwd fwd' bwd',
      length hd' = b * (N * d) -> same_positives b N d hd' hd ->
      kg_embed_loss info_nce self
        (mkTensor [b; N; d] hd) (Some (mkTensor [b; d] ld)) (mkTensor [b; M; d] td)
      = Ok (fwd, bwd) ->
      kg_embed_loss info_nce self
        (mkTensor [b; N; d] hd') (Some (mkTensor [b; d] ld)) (mkTensor [b; M; d] td)
      = Ok (fwd', bwd') ->
      fwd' = fwd).
Proof.
  intros HN HM Hh Ht Hl. split; [|split].
  - rewrite kg_embed_loss_terms by assumption.
    unfold forward_term, backward_term, positive_of.
    rewrite !pointwise_entries by assumption. reflexivity.
  - intros td' fwd bwd fwd' bwd' Ht' Hsame.
    rewrite !kg_embed_loss_terms by assumption.
    rewrite (positive_of_same Hsame).
    destruct (forward_term _ _ _ _ (negatives_of b M d td)); try discriminate.
    destruct (forward_term _ _ _ _ (negatives_of b M d td')); try discriminate.
    simpl. destruct (backward_term _ _ _ _ _); simpl; try discriminate.
    intros H1 H2. congruence.
  - intros hd' fwd bwd fwd' bwd' Hh' Hsame.
    rewrite !kg_embed_loss_terms by assumption.
    rewrite (positive_of_same Hsame).
    destruct (forward_term _ _ _ _ _); simpl; try discriminate.
    destruct (backward_term _ _ _ _ (negatives_of b N d hd)); try discriminate.
    destruct (backward_term _ _ _ _ (negatives_of b N d hd')); try discriminate.
    simpl. intros H1 H2. congruence.
Qed.

(** A link description that [encode] left out cannot be added. *)
Lemma kg_embed_loss_no_link (self : M3) (b N M d : nat) (hd td : list F) :
  0 < N -> 0 < M ->
  kg_embed_loss info_nce self (mkTensor [b; N; d] hd) None (mkTensor [b; M; d] td)
  = Raise TypeError.
Proof.
  intros HN HM. unfold kg_embed_loss, select1; simpl.
  destruct (Nat.ltb_spec 0 N); [|lia]. destruct (Nat.ltb_spec 0 M); [|lia].
  reflexivity.
Qed.
End Relational.

(** ** Encoding in sub-batches *)

Lemma mapM_pointwise {A B} (f : A -> result B) (g : A -> B) (l : list A) :
  (forall x, In x l -> f x = Ok (g x)) -> mapM f l = Ok (map g l).
Proof.
  induction l as [|a l IH]; intros H; simpl; auto.
  rewrite (H a) by (left; reflexivity). simpl.
  rewrite IH by (intros x Hx; apply H; right; assumption). reflexivity.
Qed.

Lemma range_up_bound (stop step fuel i x : nat) :
  In x (range_up stop step fuel i) -> x < stop.
Proof.
  revert i; induction fuel as [|fuel IH]; intros i; simpl; [tauto|].
  destruct (Nat.ltb_spec i stop); simpl; [|tauto].
  intros [<-|H']; eauto.
Qed.

(** The chunks [[i, min (i + step) stop)] of the loop cover the batch in
    order, without gap or overlap. *)
Lemma range_up_partition (stop step fuel i : nat) :
  0 < step -> stop - i <= fuel ->
  concat (map (fun k => seq k (Nat.min (k + step) stop - k))
              (range_up stop step fuel i))
  = seq i (stop - i).
Proof.
  intros Hs. revert i; induction fuel as [|fuel IH]; intros i Hf; simpl.
  - replace (stop - i) with 0 by lia. reflexivity.
  - destruct (Nat.ltb_spec i stop); simpl.
    + rewrite IH by lia.
      destruct (Nat.le_gt_cases (i + step) stop).
      * rewrite Nat.min_l by lia.
        replace (stop - i) with ((i + step - i) + (stop - (i + step))) by lia.
        rewrite seq_app. do 2 f_equal. lia.
      * rewrite Nat.min_r by lia.
        replace (stop - (i + step)) with 0 by lia. apply app_nil_r.
    + replace (stop - i) with 0 by lia. reflexivity.
Qed.

Lemma lookup_field_In (k : string) (f : Features) (m : Tensor Z) :
  lookup_field k f = Ok m -> In m (map snd f).
Proof.
  induction f as [|[k' v] f IH]; simpl; [discriminate|].
  destruct (String.eqb k k').
  - intros H; injection H as ->. left; reflexivity.
  - intros H; right; auto.
Qed.

Section BlockOfSlice.
Variable A : Type.

Lemma block_of_slice (w n i k : nat) (xs : list A) :
  k < n ->
  block w (firstn (n * w) (skipn (i * w) xs)) k = block w xs (i + k).
Proof.
  intros Hk. unfold block.
  rewrite skipn_firstn_comm, firstn_firstn, skipn_skipn.
  rewrite Nat.min_l by nia. do 2 f_equal. lia.
Qed.
End BlockOfSlice.

Section SubBatch.
Context {F : Type} {SF : Scalar F}.
Variable normalize_vec : list F -> list F.
Variable d : nat.
Variable enc : list (string * list Z) -> nat -> nat -> F.
Variable vocab : nat.

Lemma block_tabulate3 (b L : nat) (g : nat -> nat -> nat -> F) (i t : nat) :
  i < b -> t < L ->
  block d (tabulate3 b L d g) (i * L + t) = map (g i t) (seq 0 d).
Proof.
  intros Hi Ht.
  assert (Hlen : (i * L + t + 1) * d <= length (tabulate3 b L d g)).
  { rewrite length_tabulate3, Nat.mul_assoc. apply Nat.mul_le_mono_r. nia. }
  rewrite (block_entries fzero _ _ _ Hlen).
  apply map_ext_in. intros j Hj. apply in_seq in Hj.
  replace ((i * L + t) * d + j) with (i * (L * d) + t * d + j) by lia.
  apply nth_tabulate3; lia.
Qed.

Lemma wf_features_head (b L : nat) (f : Features) :
  wf_features b L f ->
  exists k t f', f = (k, t) :: f' /\ shape t = [b; L].
Proof.
  intros [Hall [m Hm]]. destruct f as [|[k t] f']; [discriminate|].
  exists k, t, f'. split; auto.
  apply Forall_inv in Hall. apply Hall.
Qed.

Lemma encoded_rows_uniform (nz : bool) (b : nat) (f : Features) :
  Forall (fun l => length l = d)
         (map (fun i => map (fun j => enc (row_view f i) 0 j) (seq 0 d)) (seq 0 b)).
Proof. apply rows_uniform. Qed.

(** One pass of [_encode] over a well-formed batch. *)
Lemma encode_one_pass (self : M3) (b L : nat) (f : Features) :
  model self = per_row_encoder d enc vocab ->
  (exists k t f', f = (k, t) :: f' /\ shape t = [b; L]) ->
  _encode normalize_vec self f
  = if L =? 0 then Raise IndexError
    else Ok (encoded_batch d enc normalize_vec (normlized self) b f).
Proof.
  intros Hm [k [t [f' [Hf Hsh]]]].
  unfold _encode. rewrite Hm. unfold per_row_encoder; cbn [run].
  rewrite Hf at 1. rewrite Hsh. cbn [bind].
  unfold select1; cbn [shape data length].
  change (3 <? 2) with false; cbv iota.
  destruct (Nat.ltb_spec 0 L) as [HL|HL].
  - destruct (Nat.eqb_spec L 0); [lia|].
    cbn [bind numel fold_right]. rewrite Nat.mul_1_r.
    assert (Hpool :
      concat (map (fun i => block d (tabulate3 b L d
                     (fun i t j => enc (row_view f i) t j)) (i * L + 0)) (seq 0 b))
      = concat (map (fun i => map (fun j => enc (row_view f i) 0 j) (seq 0 d))
                    (seq 0 b))).
    { f_equal. apply map_ext_in. intros i Hi. apply in_seq in Hi.
      apply block_tabulate3; lia. }
    rewrite Hpool. unfold encoded_batch, encoded_row.
    destruct (normlized self).
    + unfold normalize_last; cbn [shape data rev app removelast numel fold_right].
      rewrite Nat.mul_1_r. do 3 f_equal.
      apply map_ext_in. intros i Hi. apply in_seq in Hi. f_equal.
      rewrite (block_concat_uniform (encoded_rows_uniform true b f))
        by (rewrite length_map, length_seq; lia).
      apply nth_map_seq. lia.
    + reflexivity.
  - destruct (Nat.eqb_spec L 0); [|lia]. reflexivity.
Qed.

(** The fields of a batch cut down to the rows [[i, e)]. *)
Lemma sub_features_rows (b L i e : nat) (f : Features) :
  wf_features b L f -> i <= e -> e <= b ->
  sub_features i e f
  = Ok (map (fun kv =>
               (fst kv,
                mkTensor [e - i; L]
                  (firstn ((e - i) * (L * 1)) (skipn (i * (L * 1)) (data (snd kv))))))
            f).
Proof.
  intros [Hall _] Hie Heb. unfold sub_features. apply mapM_pointwise.
  intros kv Hkv. rewrite Forall_forall in Hall. destruct (Hall kv Hkv) as [Hsh _].
  unfold slice0. rewrite Hsh. cbn [bind numel fold_right].
  rewrite !Nat.min_l by lia. reflexivity.
Qed.

Lemma map_seq_from (B : Type) (g : nat -> B) (i n : nat) :
  map (fun k => g (i + k)) (seq 0 n) = map g (seq i n).
Proof.
  revert i; induction n as [|n IH]; intros i; simpl; auto.
  rewrite Nat.add_0_r. f_equal.
  rewrite <- (IH (S i)), <- seq_shift, map_map.
  apply map_ext. intros k. f_equal. lia.
Qed.

(** [_encode] on the rows [[i, e)] of a batch yields the rows
    [[i, e)] of the embedding of the batch. *)
Lemma encode_chunk (self : M3) (b L i e : nat) (f sub : Features) :
  model self = per_row_encoder d enc vocab ->
  wf_features b L f -> i <= e -> e <= b ->
  sub_features i e f = Ok sub ->
  _encode normalize_vec self sub
  = if L =? 0 then Raise IndexError
    else Ok (mkTensor [e - i; d]
               (concat (map (encoded_row d enc normalize_vec (normlized self) f)
                            (seq i (e - i))))).
Proof.
  intros Hm Hwf Hie Heb Hsub.
  rewrite (sub_features_rows Hwf Hie Heb) in Hsub. injection Hsub as <-.
  destruct (wf_features_head Hwf) as [k [t [f' [Hf Hsh]]]].
  rewrite (@encode_one_pass self (e - i) L); [|assumption|].
  2:{ rewrite Hf. cbn [map fst snd]. do 3 eexists. split; reflexivity. }
  destruct (L =? 0); [reflexivity|].
  unfold encoded_batch.
  apply (f_equal (fun x => Ok (mkTensor [e - i; d] (concat x)))).
  rewrite <- (map_seq_from (encoded_row d enc normalize_vec (normlized self) f) i).
  apply map_ext_in. intros j Hj. apply in_seq in Hj.
  unfold encoded_row.
  assert (Hrow : row_view
            (map (fun kv =>
                    (fst kv,
                     mkTensor [e - i; L]
                       (firstn ((e - i) * (L * 1))
                               (skipn (i * (L * 1)) (data (snd kv)))))) f) j
          = row_view f (i + j)).
  { unfold row_view. rewrite map_map. apply map_ext_in. intros kv Hkv.
    destruct Hwf as [Hall _]. rewrite Forall_forall in Hall.
    destruct (Hall kv Hkv) as [Hs _]. cbn [fst snd shape data tl].
    rewrite Hs. cbn [tl numel fold_right]. f_equal.
    apply block_of_slice. lia. }
  rewrite Hrow. reflexivity.
Qed.

(** Concatenating the chunk embeddings of the loop, from start [i]. *)
Lemma cat_chunks (nz : bool) (f : Features) (b step fuel i n : nat) (acc : list F) :
  0 < step -> b - i <= fuel ->
  cat0_from [d] n acc
    (map (fun k =>
            mkTensor [Nat.min (k + step) b - k; d]
              (concat (map (encoded_row d enc normalize_vec nz f)
                           (seq k (Nat.min (k + step) b - k)))))
         (range_up b step fuel i))
  = Ok (mkTensor [n + (b - i); d]
          (acc ++ concat (map (encoded_row d enc normalize_vec nz f) (seq i (b - i))))).
Proof.
  intros Hs. revert i n acc; induction fuel as [|fuel IH]; intros i n acc Hf.
  - replace (b - i) with 0 by lia. simpl. rewrite Nat.add_0_r, app_nil_r. reflexivity.
  - simpl. destruct (Nat.ltb_spec i b) as [Hib|Hib].
    + cbn [map cat0_from shape data].
      unfold list_eqb. destruct (list_eq_dec Nat.eq_dec [d] [d]); [|congruence].
      rewrite IH by lia. do 2 f_equal.
      * f_equal. lia.
      * rewrite <- app_assoc. f_equal. rewrite <- concat_app, <- map_app. do 2 f_equal.
        destruct (Nat.le_gt_cases (i + step) b).
        -- rewrite Nat.min_l by lia.
           replace (b - i) with ((i + step - i) + (b - (i + step))) by lia.
           rewrite seq_app. do 2 f_equal. lia.
        -- rewrite Nat.min_r by lia.
           replace (b - (i + step)) with 0 by lia. apply app_nil_r.
    + replace (b - i) with 0 by lia. simpl.
      rewrite Nat.add_0_r, app_nil_r. reflexivity.
Qed.

Lemma encode_single_pass (self : M3) (f : Features) :
  sub_batch_size self = None \/ sub_batch_size self = Some (-1)%Z ->
  encode normalize_vec self (Some f)
  = (v <- _encode normalize_vec self f ;; Ok (Some v)).
Proof. intros [H|H]; unfold encode; rewrite H; reflexivity. Qed.

Lemma encode_in_chunks (self : M3) (f : Features) (s : Z) (b L : nat) :
  sub_batch_size self = Some s -> (0 < s)%Z ->
  model self = per_row_encoder d enc vocab ->
  wf_features b L f -> 0 < b ->
  encode normalize_vec self (Some f)
  = (v <- _encode normalize_vec self f ;; Ok (Some v)).
Proof.
  intros Hs Hpos Hm Hwf Hb.
  assert (Hstep : 0 < Z.to_nat s) by lia.
  rewrite (@encode_one_pass self b L f Hm (wf_features_head Hwf)).
  unfold encode. rewrite Hs.
  destruct (Z.eqb_spec s (-1)); [lia|]. cbn [negb].
  destruct Hwf as [Hall [m Hmask]]. rewrite Hmask. cbn [bind].
  assert (Hmsh : shape m = [b; L]).
  { apply lookup_field_In in Hmask. apply in_map_iff in Hmask.
    destruct Hmask as [kv [<- Hkv]]. rewrite Forall_forall in Hall.
    apply (Hall kv Hkv). }
  unfold py_len. rewrite Hmsh. cbn [bind].
  unfold py_range0.
  destruct (Z.eqb_spec s 0); [lia|]. destruct (Z.ltb_spec s 0); [lia|].
  cbn [bind].
  assert (Hwf : wf_features b L f) by (split; eauto).
  assert (Hchunk : forall k, k < b ->
    (sub <- sub_features k (Nat.min (k + Z.to_nat s) b) f ;;
     _encode normalize_vec self sub)
    = if L =? 0 then Raise IndexError
      else Ok (mkTensor [Nat.min (k + Z.to_nat s) b - k; d]
                 (concat (map (encoded_row d enc normalize_vec (normlized self) f)
                              (seq k (Nat.min (k + Z.to_nat s) b - k)))))).
  { intros k Hk.
    assert (Hke : k <= Nat.min (k + Z.to_nat s) b) by lia.
    assert (Heb : Nat.min (k + Z.to_nat s) b <= b) by lia.
    rewrite (sub_features_rows Hwf Hke Heb). cbn [bind].
    apply (encode_chunk self Hm Hwf Hke Heb).
    exact (sub_features_rows Hwf Hke Heb). }
  destruct b as [|b']; [lia|].
  destruct (Nat.eqb_spec L 0) as [HL|HL].
  - cbn [range_up]. change (0 <? S b') with true. cbv iota. cbn [mapM].
    rewrite Hchunk by lia. reflexivity.
  - rewrite (@mapM_pointwise _ _ _
      (fun k => mkTensor [Nat.min (k + Z.to_nat s) (S b') - k; d]
                  (concat (map (encoded_row d enc normalize_vec (normlized self) f)
                               (seq k (Nat.min (k + Z.to_nat s) (S b') - k)))))).
    2:{ intros k Hk. apply range_up_bound in Hk. apply Hchunk. assumption. }
    cbn [bind range_up]. change (0 <? S b') with true. cbv iota.
    cbn [map cat0 shape data].
    rewrite cat_chunks by lia. unfold encoded_batch.
    cbn [bind]. do 3 f_equal.
    + f_equal. lia.
    + rewrite <- concat_app, <- map_app. do 2 f_equal.
      destruct (Nat.le_gt_cases (Z.to_nat s) (S b')).
      * rewrite Nat.min_l by lia.
        replace (0 + Z.to_nat s - 0) with (Z.to_nat s) by lia.
        rewrite <- seq_app. f_equal. lia.
      * rewrite Nat.min_r by lia.
        replace (S b' - (0 + Z.to_nat s)) with 0 by lia.
        rewrite app_nil_r. f_equal.
Qed.

(** With a positive sub-batch size, a batch whose attention mask has no
    row gives the loop nothing to do, whatever the encoder:
    [torch.cat] fails on the empty list. *)
Lemma encode_no_rows_sub_batched (self : M3) (f : Features) (s : Z)
      (m : Tensor Z) (rest : list nat) :
  sub_batch_size self = Some s -> (0 < s)%Z ->
  lookup_field "attention_mask" f = Ok m -> shape m = 0 :: rest ->
  encode normalize_vec self (Some f) = Raise EmptyCatError.
Proof.
  intros Hs Hpos Hm Hsh. unfold encode. rewrite Hs.
  destruct (Z.eqb_spec s (-1)); [lia|]. cbn [negb]. rewrite Hm. cbn [bind].
  unfold py_len. rewrite Hsh. cbn [bind]. unfold py_range0.
  destruct (Z.eqb_spec s 0); [lia|]. destruct (Z.ltb_spec s 0); [lia|].
  reflexivity.
Qed.

(** X21. With the sub-batch size unset or [-1], [encode] is one pass of
    [_encode] over the batch, whatever the batch and the encoder.  With
    a positive sub-batch size, an encoder that is a pure function of
    each row, and a well-formed batch (an attention mask among the
    fields, every field a [[b, L]] tensor) of at least one row,
    [encode], which cuts the batch into chunks, encodes them in order
    and concatenates, returns what one pass over the whole batch
    returns, errors included. *)
Theorem encode_sub_batch_equivalence (self : M3) (f : Features) (s : Z) (b L : nat) :
  (sub_batch_size self = None \/ sub_batch_size self = Some (-1)%Z ->
   encode normalize_vec self (Some f)
   = (v <- _encode normalize_vec self f ;; Ok (Some v))) /\
  (sub_batch_size self = Some s -> (0 < s)%Z ->
   model self = per_row_encoder d enc vocab ->
   wf_features b L f -> 0 < b ->
   encode normalize_vec self (Some f)
   = (v <- _encode normalize_vec self f ;; Ok (Some v))).
Proof.
  split; [apply encode_single_pass|].
  intros Hs Hpos Hm Hwf Hb.
  apply (encode_in_chunks self Hs Hpos Hm Hwf Hb).
Qed.
End SubBatch.

(** ** The theorems above at explicit inputs *)

(** C2, at the well-formed batch of no rows: with sub-batch size 2 the
    loop of [encode] produces no chunk and [torch.cat] fails on the
    empty list, whereas the single pass over the same batch, which the
    claim says it equals, returns the empty [[0, 2]] batch. *)
Theorem encode_empty_batch_raises :
  wf_features 0 1 (demo_batch []) /\
  encode normalize_R (demo_model false (Some 2%Z)) (Some (demo_batch []))
  = Raise EmptyCatError /\
  (v <- _encode normalize_R (demo_model false (Some 2%Z)) (demo_batch []) ;;
   Ok (Some v))
  = Ok (Some (mkTensor [0; 2] [])).
Proof.
  split; [|split; reflexivity].
  split.
  - repeat constructor.
  - eexists; reflexivity.
Qed.

Lemma encode_sub_batch_equivalence_witness :
  encode normalize_R (demo_model true (Some 2%Z)) (Some (demo_batch [5; 6; 7]%Z))
  = (v <- _encode normalize_R (demo_model true (Some 2%Z)) (demo_batch [5; 6; 7]%Z) ;;
     Ok (Some v)).
Proof.
  apply (proj2 (encode_sub_batch_equivalence normalize_R 2 demo_enc 10
                  (demo_model true (Some 2%Z)) (demo_batch [5; 6; 7]%Z) 2 3 1)).
  - reflexivity.
  - reflexivity.
  - reflexivity.
  - split.
    + repeat constructor.
    + eexists; reflexivity.
  - repeat constructor.
Defined.

Lemma entity_reconstruction_loss_targets_witness :
  dense_score (demo_model false None)
    (mkTensor [2; 1] [1; 2]%R) (mkTensor [2 * 3; 1] [1; 2; 3; 4; 5; 6]%R)
  = Ok (logits_of (demo_model false None) 2 1 (2 * 3) [1; 2]%R [1; 2; 3; 4; 5; 6]%R) /\
  entity_reconstruction_loss cross_entropy_R (demo_model false None)
    (mkTensor [2; 1] [1; 2]%R) (mkTensor [2 * 3; 1] [1; 2; 3; 4; 5; 6]%R)
  = cross_entropy_R
      (logits_of (demo_model false None) 2 1 (2 * 3) [1; 2]%R [1; 2; 3; 4; 5; 6]%R)
      (map (fun i => i * 3) (seq 0 2)).
Proof.
  apply (entity_reconstruction_loss_targets cross_entropy_R (demo_model false None)
           3 1 [1; 2]%R [1; 2; 3; 4; 5; 6]%R).
  repeat constructor.
Defined.

Lemma kg_embed_loss_directions_witness :
  kg_embed_loss (info_nce_R 1) (demo_model false None)
    (mkTensor [1; 2; 1] [1; 2]%R) (Some (mkTensor [1; 1] [5]%R))
    (mkTensor [1; 2; 1] [3; 4]%R)
  = (fwd <- info_nce_R 1 (forward_anchor 1 2 1 [1; 2]%R [5]%R)
                      (positive_of 1 2 1 [3; 4]%R) (negatives_of 1 2 1 [3; 4]%R) ;;
     bwd <- info_nce_R 1 (backward_anchor 1 2 1 [3; 4]%R [5]%R)
                      (positive_of 1 2 1 [1; 2]%R) (negatives_of 1 2 1 [1; 2]%R) ;;
     Ok (fwd, bwd)).
Proof.
  apply (@kg_embed_loss_directions R _ (info_nce_R 1) (demo_model false None)
           1 2 2 1 [1; 2]%R [3; 4]%R [5]%R).
  - repeat constructor.
  - repeat constructor.
  - reflexivity.
  - reflexivity.
  - reflexivity.
Defined.

(** ** Normalisation and temperature *)

Section Temperature.
Context {F : Type} {SF : Scalar F}.
Variable from_pretrained : string -> bool -> bool -> @Encoder F.
Variable tokenizer_from_pretrained : string -> Tokenizer.
Variable get_peft_model : @Encoder F -> list string -> @Encoder F.
Variable lora_half : @Encoder F -> @Encoder F.
Variable checkpointing : @Encoder F -> @Encoder F.

Lemma init_temperature (a : ModelArguments) (w : World) :
  temperature (fst (M3DenseEmbedModel_init from_pretrained tokenizer_from_pretrained
                      get_peft_model lora_half a w))
  = if ma_normlized a then ma_temperature a else fof_Z 1.
Proof.
  unfold M3DenseEmbedModel_init, load_model. simpl.
  destruct (ma_normlized a); reflexivity.
Qed.

Lemma after_call_config (self : M3) (m : Method) :
  let self' := after_call from_pretrained tokenizer_from_pretrained
                          get_peft_model lora_half checkpointing self m in
  temperature self' = temperature self /\ normlized self' = normlized self.
Proof. destruct m; simpl; auto. Qed.

(** No method call changes the temperature or the normalisation flag. *)
Lemma after_calls_config (ms : list Method) (self : M3) :
  let self' := after_calls from_pretrained tokenizer_from_pretrained
                           get_peft_model lora_half checkpointing self ms in
  temperature self' = temperature self /\ normlized self' = normlized self.
Proof.
  unfold after_calls. revert self.
  induction ms as [|m ms IH]; intros self; simpl; auto.
  destruct (IH (after_call from_pretrained tokenizer_from_pretrained
                           get_peft_model lora_half checkpointing self m))
    as [Ht Hn].
  destruct (after_call_config self m) as [Ht' Hn'].
  split; congruence.
Qed.
End Temperature.

Section UnitNorm.
Local Open Scope R_scope.

Lemma fsum_acc (l : list R) (a : R) :
  fold_left Rplus l a = a + fold_left Rplus l 0.
Proof.
  revert a; induction l as [|x l IH]; intros a; simpl.
  - lra.
  - rewrite IH, (IH (0 + x)). lra.
Qed.

Lemma fsum_scaled (g : R -> R) (k : R) (l : list R) :
  fsum (map (fun x => k * g x) l) = k * fsum (map g l).
Proof.
  unfold fsum; simpl. induction l as [|x l IH]; simpl.
  - lra.
  - rewrite fsum_acc, IH, (fsum_acc _ (0 + g x)). lra.
Qed.

Lemma fsum_squares_nonneg (l : list R) : 0 <= fsum (map (fun x => x * x) l).
Proof.
  unfold fsum; simpl. induction l as [|x l IH]; simpl.
  - lra.
  - rewrite fsum_acc. pose proof (Rle_0_sqr x) as Hx. unfold Rsqr in Hx. lra.
Qed.

Lemma normalize_eps_pos : 0 < normalize_eps.
Proof. unfold normalize_eps. apply Rinv_0_lt_compat. lra. Qed.

(** A vector whose norm is at least [eps] is normalised to norm 1. *)
Lemma normalize_R_unit (v : list R) :
  normalize_eps <= l2_norm v -> l2_norm (normalize_R v) = 1.
Proof.
  intros Hv. pose proof normalize_eps_pos as He.
  unfold normalize_R. rewrite Rmax_left by assumption.
  set (c := l2_norm v) in *. assert (Hc : 0 < c) by lra.
  unfold l2_norm at 1. rewrite map_map.
  rewrite (map_ext (fun x => x / c * (x / c)) (fun x => / (c * c) * (x * x)))
    by (intros x; field; lra).
  rewrite fsum_scaled.
  assert (Hsq : fsum (map (fun x => x * x) v) = c * c).
  { unfold c, l2_norm. rewrite sqrt_sqrt; [reflexivity|apply fsum_squares_nonneg]. }
  rewrite Hsq.
  replace (/ (c * c) * (c * c)) with 1 by (field; lra).
  apply sqrt_1.
Qed.

Lemma length_normalize_R (v : list R) : length (normalize_R v) = length v.
Proof. apply length_map. Qed.
End UnitNorm.

Section PooledRows.
Variable A : Type.

Lemma numel_split (sh : list nat) :
  sh <> [] -> numel sh = numel (removelast sh) * last sh 0.
Proof.
  induction sh as [|n sh IH]; intros Hne; [congruence|].
  destruct sh as [|m sh'].
  - simpl. lia.
  - change (numel (n :: m :: sh')) with (n * numel (m :: sh')).
    rewrite IH by discriminate.
    change (removelast (n :: m :: sh')) with (n :: removelast (m :: sh')).
    change (last (n :: m :: sh') 0) with (last (m :: sh') 0).
    simpl numel. lia.
Qed.

Lemma length_block (w : nat) (xs : list A) (i : nat) :
  (i + 1) * w <= length xs -> length (block w xs i) = w.
Proof.
  intros H. unfold block. rewrite length_firstn, length_skipn. lia.
Qed.

(** Indexing axis 1 away keeps a tensor well-shaped. *)
Lemma select1_well_shaped (r k : nat) (t u : Tensor A) :
  well_shaped t -> select1 r k t = Ok u -> well_shaped u.
Proof.
  unfold well_shaped, select1. intros Hw.
  destruct (length (shape t) <? r); [discriminate|].
  destruct (shape t) as [|a [|n rest]] eqn:Hs; try discriminate.
  destruct (Nat.ltb_spec k n) as [Hk|Hk]; [|discriminate].
  intros H; injection H as <-. cbn [shape data].
  change (numel (a :: n :: rest)) with (a * (n * numel rest)) in Hw.
  change (numel (a :: rest)) with (a * numel rest).
  rewrite (@length_concat_uniform _ (numel rest)).
  - rewrite length_map, length_seq. reflexivity.
  - apply Forall_forall. intros l Hl. apply in_map_iff in Hl.
    destruct Hl as [i [<- Hi]]. apply in_seq in Hi.
    apply length_block. rewrite Hw, Nat.mul_assoc.
    apply Nat.mul_le_mono_r. nia.
Qed.
End PooledRows.

Section NormalisedRows.
Local Open Scope R_scope.

(** Row [i] of [F.normalize(t, dim=-1)] is the normalisation of row
    [i] of [t]. *)
Lemma normalize_last_rows (t : Tensor R) (i : nat) :
  well_shaped t -> shape t <> [] -> (i < n_rows t)%nat ->
  exists u, normalize_last normalize_R t = Ok u /\
            shape u = shape t /\
            row_of u i = normalize_R (row_of t i).
Proof.
  intros Hw Hne Hi. unfold normalize_last.
  destruct (rev (shape t)) as [|d r] eqn:Hrev.
  - apply (f_equal (@rev nat)) in Hrev. rewrite rev_involutive in Hrev.
    simpl in Hrev. congruence.
  - assert (Hsh : shape t = rev r ++ [d]).
    { apply (f_equal (@rev nat)) in Hrev. rewrite rev_involutive in Hrev.
      exact Hrev. }
    eexists. split; [reflexivity|]. split; [reflexivity|].
    unfold row_of, n_rows, well_shaped in *. cbn [shape data].
    rewrite (numel_split Hne) in Hw.
    rewrite Hsh in *. rewrite last_last in *. rewrite removelast_last in *.
    rewrite (@block_concat_uniform _ d).
    + rewrite nth_map_seq by assumption. reflexivity.
    + apply Forall_forall. intros l Hl. apply in_map_iff in Hl.
      destruct Hl as [j [<- Hj]]. apply in_seq in Hj.
      rewrite length_normalize_R. apply length_block.
      rewrite Hw. apply Nat.mul_le_mono_r. lia.
    + rewrite length_map, length_seq. assumption.
Qed.

Lemma select1_shape_nonempty (r k : nat) (t u : Tensor R) :
  select1 r k t = Ok u -> shape u <> [].
Proof.
  unfold select1. destruct (length (shape t) <? r); [discriminate|].
  destruct (shape t) as [|a [|n rest]]; try discriminate.
  destruct (k <? n); [|discriminate].
  intros H; injection H as <-. discriminate.
Qed.
End NormalisedRows.

(** C6 (amended). A model built with normalisation off has temperature
    1.0 whatever temperature was configured, and keeps it through any
    sequence of method calls.  With normalisation on, a row of the
    output of [_encode] has L2 norm 1 whenever the norm of the pooled
    vector it comes from is at least [eps = 1e-12], the bound below
    which [F.normalize] divides by [eps] instead. *)
Theorem normalization_invariant :
  (forall (F : Type) (SF : Scalar F)
          (from_pretrained : string -> bool -> bool -> @Encoder F)
          (tokenizer_from_pretrained : string -> Tokenizer)
          (get_peft_model : @Encoder F -> list string -> @Encoder F)
          (lora_half checkpointing : @Encoder F -> @Encoder F)
          (a : ModelArguments) (w : World) (ms : list Method),
      ma_normlized a = false ->
      temperature
        (after_calls from_pretrained tokenizer_from_pretrained get_peft_model
           lora_half checkpointing
           (fst (M3DenseEmbedModel_init from_pretrained tokenizer_from_pretrained
                   get_peft_model lora_half a w)) ms)
      = fof_Z 1) /\
  (forall (self : @M3 R) (f : Features) (lhs pooled : Tensor R) (i : nat),
      normlized self = true ->
      run (model self) f = Ok lhs -> well_shaped lhs ->
      select1 2 0 lhs = Ok pooled ->
      i < n_rows pooled ->
      (normalize_eps <= l2_norm (row_of pooled i))%R ->
      exists t, _encode normalize_R self f = Ok t /\
                shape t = shape pooled /\
                l2_norm (row_of t i) = 1%R).
Proof.
  split.
  - intros F SF fp tp gp lh ck a w ms Hn.
    destruct (after_calls_config fp tp gp lh ck ms
                (fst (M3DenseEmbedModel_init fp tp gp lh a w))) as [Ht _].
    rewrite Ht, init_temperature, Hn. reflexivity.
  - intros self f lhs pooled i Hn Hrun Hw Hsel Hi Hnorm.
    unfold _encode. rewrite Hrun. cbn [bind]. rewrite Hsel. cbn [bind]. rewrite Hn.
    destruct (@normalize_last_rows pooled i) as [u [Hu [Hsh Hrow]]].
    + apply (@select1_well_shaped _ 2 0 lhs pooled Hw Hsel).
    + apply (@select1_shape_nonempty 2 0 lhs pooled Hsel).
    + assumption.
    + exists u. split; [assumption|]. split; [assumption|].
      rewrite Hrow. apply normalize_R_unit. assumption.
Qed.

(** C6, as stated for every embedding, fails on a pooled vector that is
    zero: with normalisation on, the row whose only token id is 0 is
    embedded as the zero vector, of norm 0. *)
Lemma zero_vector_not_unit :
  normlized (scalar_model true) = true /\
  exists t, _encode normalize_R (scalar_model true) (demo_batch [0%Z]) = Ok t /\
            l2_norm (row_of t 0) <> 1%R.
Proof.
  split; [reflexivity|].
  exists (mkTensor [1; 1]
            [(IZR 0 / Rmax (l2_norm [IZR 0]) normalize_eps)%R]).
  split; [reflexivity|].
  unfold row_of, block; cbn [shape data last skipn firstn Nat.mul].
  unfold l2_norm, fsum; cbn [map fold_left fadd fzero Scalar_R].
  unfold Rdiv. rewrite !Rmult_0_l, Rplus_0_l, sqrt_0. lra.
Qed.

Lemma normalization_invariant_witness :
  exists t, _encode normalize_R (scalar_model true) (demo_batch [3%Z]) = Ok t /\
            shape t = [1; 1] /\
            l2_norm (row_of t 0) = 1%R.
Proof.
  apply (proj2 normalization_invariant (scalar_model true) (demo_batch [3%Z])
           (mkTensor [1; 1; 1] [IZR 3]) (mkTensor [1; 1] [IZR 3]) 0).
  - reflexivity.
  - reflexivity.
  - reflexivity.
  - reflexivity.
  - repeat constructor.
  - unfold row_of, block; cbn [shape data last skipn firstn Nat.mul].
    unfold l2_norm, fsum; cbn [map fold_left fadd fzero Scalar_R].
    rewrite Rplus_0_l, sqrt_square by lra.
    unfold normalize_eps.
    apply Rle_trans with (r2 := 1%R); [|lra].
    rewrite <- Rinv_1. apply Rinv_le_contravar; lra.
Defined.

(** ** The retrieval loss inside the training step *)

Section GroupedPassages.
Context {F : Type} {SF : Scalar F}.
Variable cross_entropy : Tensor F -> list nat -> result F.

Lemma view_rows_grouped (b m N : nat) (xs : list F) :
  0 < b -> view_rows b (mkTensor [m; b; N] xs) = Ok (mkTensor [b; m * N] xs).
Proof.
  intros Hb. unfold view_rows; cbn [shape data numel fold_right].
  destruct (Nat.eqb_spec b 0); [lia|].
  replace (m * (b * (N * 1))) with (m * N * b) by lia.
  rewrite Nat.Div0.mod_mul, Nat.div_mul by lia. reflexivity.
Qed.

Lemma dense_score_grouped (self : M3) (b m N d : nat) (qd pd : list F) :
  0 < b ->
  dense_score self (mkTensor [b; d] qd) (mkTensor [m; N; d] pd)
  = Ok (grouped_logits self b m N d qd pd).
Proof.
  intros Hb. unfold dense_score. rewrite similarity_3d. cbn [bind size0 shape].
  unfold div_scalar; cbn [shape data]. apply view_rows_grouped. assumption.
Qed.

(** Given as many candidate sets as queries, still grouped, the loss
    takes the quotient of the leading sizes, 1, as the multiplier:
    the target of query row [i] is column [i]. *)
Lemma entity_reconstruction_loss_grouped (self : M3) (b N d : nat) (qd pd : list F) :
  0 < b ->
  entity_reconstruction_loss cross_entropy self
    (mkTensor [b; d] qd) (mkTensor [b; N; d] pd)
  = cross_entropy (grouped_logits self b b N d qd pd) (seq 0 b).
Proof.
  intros Hb. unfold entity_reconstruction_loss; cbn [bind size0 shape].
  destruct (Nat.eqb_spec b 0); [lia|].
  rewrite dense_score_grouped by assumption. cbn [bind].
  rewrite Nat.div_same by lia. f_equal.
  rewrite <- (map_id (seq 0 b)) at 2. apply map_ext. intros i. lia.
Qed.
End GroupedPassages.

Ltac eval_model :=
  cbv - [Rplus Rminus Rmult Rdiv Rinv Ropp exp ln INR IZR Rmax sqrt].

Ltac norm_consts :=
  unfold Rdiv;
  repeat (progress (rewrite ?Rmult_0_l, ?Rmult_0_r, ?Rmult_1_l, ?Rmult_1_r,
                      ?Rplus_0_l, ?Rplus_0_r, ?Rinv_1, ?exp_0, ?Rminus_0_r)).

(** C1, at the training step [step_inputs]: the passage set reaches the
    loss as the grouped [[2, 2, 1]] tensor, the targets are columns 0
    and 1, and the loss is not the one that the flattened [[4, 1]]
    passage set with targets 0 and 2 gives. *)
Theorem forward_retrieval_loss_at_step :
  exists s claimed,
    forward_step cross_entropy_R (info_nce_R 1) normalize_R
                 (scalar_model false) step_inputs = Ok s /\
    st_query s = mkTensor [2; 1] [0; 1]%R /\
    st_passage s = mkTensor [2; 2; 1] [0; 0; 1; 0]%R /\
    entity_reconstruction_loss cross_entropy_R (scalar_model false)
      (st_query s) (st_passage s)
    = cross_entropy_R
        (grouped_logits (scalar_model false) 2 2 2 1 (data (st_query s))
                        (data (st_passage s)))
        [0; 1] /\
    st_loss1 s = ((ln (1 + 1 + 1 + 1) + ln (1 + 1 + exp 1 + 1)) / 2)%R /\
    entity_reconstruction_loss cross_entropy_R (scalar_model false)
      (st_query s) (flatten_groups (st_passage s))
    = cross_entropy_R
        (logits_of (scalar_model false) 2 1 4 (data (st_query s))
                   (data (st_passage s)))
        [0; 2] /\
    entity_reconstruction_loss cross_entropy_R (scalar_model false)
      (st_query s) (flatten_groups (st_passage s)) = Ok claimed /\
    claimed = ((ln (1 + 1 + 1 + 1) + ln (1 + 1 + exp 1 + 1) - 1) / 2)%R /\
    st_loss1 s <> claimed.
Proof.
  eexists. eexists.
  split; [eval_model; reflexivity|].
  cbn [st_query st_passage st_loss1 data].
  split; [reflexivity|].
  split; [reflexivity|].
  split; [apply (@entity_reconstruction_loss_grouped R _ cross_entropy_R
                   (scalar_model false) 2 2 1 [0; 1]%R [0; 0; 1; 0]%R); lia|].
  split.
  { change (INR 2) with (1 + 1)%R. norm_consts. lra. }
  split; [apply (@entity_reconstruction_loss_rows R _ cross_entropy_R
                   (scalar_model false) 2 2 1 [0; 1]%R [0; 0; 1; 0]%R); lia|].
  split; [eval_model; reflexivity|].
  split.
  { change (INR 2) with (1 + 1)%R. norm_consts. lra. }
  change (INR 2) with (1 + 1)%R. norm_consts.
  intros H. lra.
Qed.

(** * Further properties of the module *)

(** ** Scores *)

Section ScoreFacts.
Context {F : Type} {SF : Scalar F}.
Variable cross_entropy : Tensor F -> list nat -> result F.
Variable from_pretrained : string -> bool -> bool -> @Encoder F.
Variable tokenizer_from_pretrained : string -> Tokenizer.
Variable get_peft_model : @Encoder F -> list string -> @Encoder F.
Variable lora_half : @Encoder F -> @Encoder F.

Lemma nth_map_in (A B : Type) (g : A -> B) (l : list A) (n : nat) (da : A) (db : B) :
  n < length l -> nth n (map g l) db = g (nth n l da).
Proof.
  intros Hn. rewrite nth_indep with (d' := g da) by (rewrite length_map; assumption).
  apply map_nth.
Qed.

(** X1. Entry [(i, j)] of the scores of [b > 0] queries against [m]
    passages is the inner product of query [i] and passage [j] divided
    by the temperature, in a well-shaped [[b, m]] matrix. *)
Theorem dense_score_entry (self : M3) (b d m : nat) (qd pd : list F) (i j : nat) :
  0 < b -> i < b -> j < m ->
  exists s,
    dense_score self (mkTensor [b; d] qd) (mkTensor [m; d] pd) = Ok s /\
    shape s = [b; m] /\ well_shaped s /\
    get2 fzero m (data s) i j = fdiv (dot_rows d qd pd i j) (temperature self).
Proof.
  intros Hb Hi Hj. exists (logits_of self b d m qd pd).
  split; [apply dense_score_2d; assumption|].
  split; [reflexivity|]. split.
  - unfold well_shaped, logits_of; cbn [shape data numel fold_right].
    rewrite length_map, length_tabulate2. lia.
  - unfold logits_of, get2; cbn [data].
    rewrite (@nth_map_in _ _ _ _ _ fzero) by (rewrite length_tabulate2; nia).
    rewrite nth_tabulate2 by assumption. reflexivity.
Qed.

(** X2. The similarity of two matrices exists exactly when their
    feature sizes agree; otherwise the product raises [RuntimeError],
    against a matrix and against grouped candidate sets alike.  A
    passage operand of rank 1 has no two axes to transpose. *)
Theorem compute_similarity_feature_sizes (b d m d' c n : nat) (qd pd : list F) :
  compute_similarity (mkTensor [b; d] qd) (mkTensor [m; d'] pd)
  = (if d =? d'
     then Ok (mkTensor [b; m] (tabulate2 b m (fun i j => dot_rows d qd pd i j)))
     else Raise RuntimeError) /\
  compute_similarity (mkTensor [b; d] qd) (mkTensor [c; n; d'] pd)
  = (if d =? d'
     then Ok (mkTensor [c; b; n]
                (tabulate3 c b n (fun i j k => dot_rows d qd pd j (i * n + k))))
     else Raise RuntimeError) /\
  compute_similarity (mkTensor [b; d] qd) (mkTensor [n] pd) = Raise IndexError.
Proof.
  split; [|split; [|reflexivity]].
  - destruct (Nat.eqb_spec d d') as [<-|Hd]; [apply similarity_2d|].
    unfold compute_similarity, transpose01, matmul; simpl.
    destruct (Nat.eqb_spec d d'); [contradiction|reflexivity].
  - destruct (Nat.eqb_spec d d') as [<-|Hd]; [apply similarity_3d|].
    unfold compute_similarity, transpose_last2, matmul; simpl.
    destruct (Nat.eqb_spec d d'); [contradiction|reflexivity].
Qed.

(** X3. Without query rows there is nothing to score: [dense_score]
    raises [RuntimeError] at its [view], and the retrieval loss raises
    [ZeroDivisionError] before it scores, whatever the passages. *)
Theorem empty_query_batch_raises (self : M3) (d m : nat) (rest : list nat)
        (qd pd pd' : list F) :
  dense_score self (mkTensor [0; d] qd) (mkTensor [m; d] pd) = Raise RuntimeError /\
  entity_reconstruction_loss cross_entropy self
    (mkTensor [0; d] qd) (mkTensor (m :: rest) pd') = Raise ZeroDivisionError.
Proof.
  split; [|reflexivity].
  unfold dense_score. rewrite similarity_2d. reflexivity.
Qed.

(** X4. Built with normalisation off, two models score alike whatever
    temperatures were configured: the scores are the plain similarity
    divided by 1. *)
Theorem scores_ignore_temperature_unnormalised
        (a a' : ModelArguments) (w w' : World) (q p : Tensor F) :
  ma_normlized a = false -> ma_normlized a' = false ->
  dense_score (fst (M3DenseEmbedModel_init from_pretrained tokenizer_from_pretrained
                      get_peft_model lora_half a w)) q p
  = dense_score (fst (M3DenseEmbedModel_init from_pretrained tokenizer_from_pretrained
                        get_peft_model lora_half a' w')) q p /\
  dense_score (fst (M3DenseEmbedModel_init from_pretrained tokenizer_from_pretrained
                      get_peft_model lora_half a w)) q p
  = (sim <- compute_similarity q p ;;
     b <- size0 q ;;
     view_rows b (div_scalar sim (fof_Z 1))).
Proof.
  intros Ha Ha'. unfold dense_score.
  rewrite !init_temperature, Ha, Ha'. split; reflexivity.
Qed.
End ScoreFacts.

(** X5. Over the reals the similarity is symmetric: scoring the
    passages against the queries gives the transpose of scoring the
    queries against the passages. *)
Theorem compute_similarity_transpose (b d m : nat) (qd pd : list R) :
  (s <- compute_similarity (mkTensor [b; d] qd) (mkTensor [m; d] pd) ;;
   transpose01 0%R s)
  = compute_similarity (mkTensor [m; d] pd) (mkTensor [b; d] qd).
Proof.
  rewrite !similarity_2d. cbn [bind]. unfold transpose01; cbn [shape data].
  do 2 f_equal. apply tabulate2_ext. intros i j Hi Hj.
  unfold get2. rewrite nth_tabulate2 by assumption.
  unfold dot_rows. f_equal. apply map_ext. intros t.
  cbn [fmul Scalar_R]. apply Rmult_comm.
Qed.

Lemma dense_score_entry_witness :
  exists s,
    dense_score (demo_model false None)
      (mkTensor [2; 1] [1; 2]%R) (mkTensor [3; 1] [4; 5; 6]%R) = Ok s /\
    shape s = [2; 3] /\ well_shaped s /\
    get2 fzero 3 (data s) 1 2
    = fdiv (dot_rows 1 [1; 2]%R [4; 5; 6]%R 1 2) (temperature (demo_model false None)).
Proof.
  apply (@dense_score_entry R _ (demo_model false None) 2 1 3
           [1; 2]%R [4; 5; 6]%R 1 2); repeat constructor.
Defined.

Lemma scores_ignore_temperature_unnormalised_witness :
  let fp := fun (_ : string) (_ _ : bool) => per_row_encoder 1 demo_enc 10 in
  let tp := fun (_ : string) => demo_tokenizer in
  let a t := mkModelArguments "m" "t" false false false [] false false t None in
  dense_score (fst (M3DenseEmbedModel_init fp tp (fun e _ => e) (fun e => e)
                      (a 5%R) []))
    (mkTensor [1; 1] [2%R]) (mkTensor [1; 1] [3%R])
  = dense_score (fst (M3DenseEmbedModel_init fp tp (fun e _ => e) (fun e => e)
                        (a 7%R) ["x"]))
      (mkTensor [1; 1] [2%R]) (mkTensor [1; 1] [3%R]).
Proof.
  intros fp tp a.
  apply (@scores_ignore_temperature_unnormalised R _ fp tp (fun e _ => e) (fun e => e)
           (a 5%R) (a 7%R) [] ["x"]); reflexivity.
Defined.

(** ** The retrieval loss on any number of passages *)

Section RetrievalFacts.
Context {F : Type} {SF : Scalar F}.
Variable cross_entropy : Tensor F -> list nat -> result F.

Lemma ratio_targets_in_range (b m i : nat) :
  0 < b -> 0 < m -> i < b -> i * (m / b) < m.
Proof.
  intros Hb Hm Hi.
  pose proof (Nat.Div0.mul_div_le m b) as Hle.
  destruct (Nat.eq_dec (m / b) 0) as [Hz|Hz].
  - rewrite Hz. lia.
  - nia.
Qed.

Lemma entity_reconstruction_loss_any_ratio (self : M3) (b m d : nat) (qd pd : list F) :
  0 < b ->
  entity_reconstruction_loss cross_entropy self
    (mkTensor [b; d] qd) (mkTensor [m; d] pd)
  = cross_entropy (logits_of self b d m qd pd)
                  (map (fun i => i * (m / b)) (seq 0 b)).
Proof.
  intros Hb. unfold entity_reconstruction_loss; simpl.
  destruct (Nat.eqb_spec b 0); [lia|].
  rewrite dense_score_2d by assumption. reflexivity.
Qed.

(** X6. For [b > 0] queries and any number [m] of passages, a multiple
    of [b] or not, the target of query row [i] is [i * (m // b)]: the
    quotient is truncated, all [m] passages are scored, and no target
    exceeds [(b - 1) * (m // b)].  Every target is a column of the
    [[b, m]] scores as soon as there is a passage. *)
Theorem entity_reconstruction_loss_truncates
        (self : M3) (b m d : nat) (qd pd : list F) :
  0 < b ->
  entity_reconstruction_loss cross_entropy self
    (mkTensor [b; d] qd) (mkTensor [m; d] pd)
  = cross_entropy (logits_of self b d m qd pd)
                  (map (fun i => i * (m / b)) (seq 0 b)) /\
  (0 < m -> Forall (fun t => t < m) (map (fun i => i * (m / b)) (seq 0 b))) /\
  (forall t, In t (map (fun i => i * (m / b)) (seq 0 b)) -> t <= b * (m / b) - m / b).
Proof.
  intros Hb. split; [|split].
  - apply entity_reconstruction_loss_any_ratio. assumption.
  - intros Hm. apply Forall_forall. intros t Ht. apply in_map_iff in Ht.
    destruct Ht as [i [<- Hi]]. apply in_seq in Hi.
    apply ratio_targets_in_range; lia.
  - intros t Ht. apply in_map_iff in Ht.
    destruct Ht as [i [<- Hi]]. apply in_seq in Hi. nia.
Qed.
End RetrievalFacts.

(** X7. Over the reals, with the library's mean cross-entropy, the
    retrieval loss of [b > 0] queries against [m > 0] passages of the
    same feature size is defined: no target is out of bounds, and the
    loss is the mean over the rows of log-sum-exp minus the target's
    score. *)
Theorem entity_reconstruction_loss_defined
        (self : @M3 R) (b m d : nat) (qd pd : list R) :
  0 < b -> 0 < m ->
  entity_reconstruction_loss cross_entropy_R self
    (mkTensor [b; d] qd) (mkTensor [m; d] pd)
  = Ok (fsum (map (fun i => row_nll m (data (logits_of self b d m qd pd))
                                    i (i * (m / b)))
                  (seq 0 b)) / INR b)%R.
Proof.
  intros Hb Hm.
  rewrite (@entity_reconstruction_loss_any_ratio R _ cross_entropy_R self b m d qd pd Hb).
  unfold cross_entropy_R, logits_of; cbn [shape data].
  rewrite length_map, length_seq, Nat.eqb_refl. cbn [negb].
  assert (Hall : forallb (fun t => t <? m) (map (fun i => i * (m / b)) (seq 0 b)) = true).
  { apply forallb_forall. intros t Ht. apply Nat.ltb_lt.
    apply in_map_iff in Ht. destruct Ht as [i [<- Hi]]. apply in_seq in Hi.
    apply ratio_targets_in_range; lia. }
  rewrite Hall. do 3 f_equal.
  generalize (seq 0 b) as l. intros l. induction l as [|i l IH]; simpl; auto.
  f_equal. exact IH.
Qed.

Lemma entity_reconstruction_loss_truncates_witness :
  entity_reconstruction_loss cross_entropy_R (demo_model false None)
    (mkTensor [2; 1] [1; 2]%R) (mkTensor [5; 1] [1; 2; 3; 4; 5]%R)
  = cross_entropy_R
      (logits_of (demo_model false None) 2 1 5 [1; 2]%R [1; 2; 3; 4; 5]%R)
      (map (fun i => i * (5 / 2)) (seq 0 2)).
Proof.
  apply (@entity_reconstruction_loss_truncates R _ cross_entropy_R
           (demo_model false None) 2 5 1 [1; 2]%R [1; 2; 3; 4; 5]%R).
  repeat constructor.
Defined.

Lemma entity_reconstruction_loss_defined_witness :
  exists loss,
    entity_reconstruction_loss cross_entropy_R (demo_model false None)
      (mkTensor [2; 1] [1; 2]%R) (mkTensor [5; 1] [1; 2; 3; 4; 5]%R) = Ok loss.
Proof.
  eexists.
  apply (@entity_reconstruction_loss_defined (demo_model false None) 2 5 1
           [1; 2]%R [1; 2; 3; 4; 5]%R); repeat constructor.
Defined.

(** ** The relational loss: absent links and reversed triples *)

Section LinkFacts.
Context {F : Type} {SF : Scalar F}.
Variable cross_entropy : Tensor F -> list nat -> result F.
Variable info_nce : Tensor F -> Tensor F -> Tensor F -> result F.
Variable normalize_vec : list F -> list F.

Lemma kg_embed_loss_absent_link (self : M3) (head tail : Tensor F) :
  exists e, kg_embed_loss info_nce self head None tail = Raise e.
Proof.
  unfold kg_embed_loss.
  destruct (select1 3 0 head); [|eexists; reflexivity].
  destruct (slice1_from1 head); [|eexists; reflexivity].
  destruct (select1 3 0 tail); [|eexists; reflexivity].
  destruct (slice1_from1 tail); eexists; reflexivity.
Qed.

(** X8. A training step whose link description is absent returns no
    loss, whatever the other inputs and the encoder: [encode] turns the
    absent input into [None], and the relational loss cannot add
    [None] to the head embeddings. *)
Theorem forward_absent_link_raises (self : M3) (head head_desc tail tail_desc : Group) :
  encode normalize_vec self None = Ok None /\
  exists e,
    forward cross_entropy info_nce normalize_vec self
            (head, head_desc, None, tail, tail_desc) = Raise e.
Proof.
  split; [reflexivity|].
  unfold forward, forward_step.
  destruct (encode_group normalize_vec self head) as [h|e]; [|eexists; reflexivity].
  destruct (encode_group normalize_vec self head_desc) as [hd|e];
    [|eexists; reflexivity].
  destruct (encode_group normalize_vec self tail) as [t|e]; [|eexists; reflexivity].
  destruct (encode_group normalize_vec self tail_desc) as [td|e];
    [|eexists; reflexivity].
  cbn [bind encode].
  destruct (select1 3 0 h) as [hq|e]; [|eexists; reflexivity].
  destruct (select1 3 0 t) as [tq|e]; [|eexists; reflexivity].
  cbn [bind].
  destruct (cat0 [hq; tq]) as [q|e]; [|eexists; reflexivity].
  destruct (cat0 [hd; td]) as [p|e]; [|eexists; reflexivity].
  cbn [bind].
  destruct (entity_reconstruction_loss cross_entropy self q p) as [l1|e];
    [|eexists; reflexivity].
  cbn [bind].
  destruct (kg_embed_loss_absent_link self h t) as [e He].
  rewrite He. eexists; reflexivity.
Qed.

(** A group with no member, or with an absent member, cannot be
    stacked. *)
Lemma encode_group_empty (self : M3) :
  encode_group normalize_vec self [] = Raise RuntimeError.
Proof. reflexivity. Qed.
End LinkFacts.

Section ReversedTriples.
Local Open Scope R_scope.
Variable info_nce : Tensor R -> Tensor R -> Tensor R -> result R.

Lemma zip_plus_opp (xs ys : list R) :
  zip_with Rplus xs (map Ropp ys) = zip_with Rminus xs ys.
Proof.
  revert ys; induction xs as [|x xs IH]; intros [|y ys]; simpl; auto.
  rewrite IH. reflexivity.
Qed.

Lemma zip_minus_opp (xs ys : list R) :
  zip_with Rminus xs (map Ropp ys) = zip_with Rplus xs ys.
Proof.
  revert ys; induction xs as [|x xs IH]; intros [|y ys]; simpl; auto.
  rewrite IH. f_equal. lra.
Qed.

Lemma pointwise_negate (a l : Tensor R) :
  pointwise fadd a (negate l) = pointwise fsub a l /\
  pointwise fsub a (negate l) = pointwise fadd a l.
Proof.
  unfold pointwise, negate; cbn [shape data fadd fsub Scalar_R].
  rewrite zip_plus_opp, zip_minus_opp. split; reflexivity.
Qed.

(** X9. The two directions mirror each other: if a triple scores
    [(forward, backward)], the reversed triple, tail for head and the
    opposite link description, scores [(backward, forward)]. *)
Theorem kg_embed_loss_reversed (self : @M3 R) (head link tail : Tensor R) (fwd bwd : R) :
  kg_embed_loss info_nce self head (Some link) tail = Ok (fwd, bwd) ->
  kg_embed_loss info_nce self tail (Some (negate link)) head = Ok (bwd, fwd).
Proof.
  unfold kg_embed_loss.
  destruct (select1 3 0 head) as [hp|e]; [|discriminate].
  destruct (slice1_from1 head) as [hn|e]; [|discriminate].
  destruct (select1 3 0 tail) as [tp|e]; [|discriminate].
  destruct (slice1_from1 tail) as [tn|e]; [|discriminate].
  cbn [bind].
  destruct (pointwise_negate tp link) as [-> _].
  destruct (pointwise_negate hp link) as [_ ->].
  destruct (pointwise fadd hp link) as [af|e]; [|discriminate]. cbn [bind].
  destruct (info_nce af tp tn) as [f|e]; [|discriminate]. cbn [bind].
  destruct (pointwise fsub tp link) as [ab|e]; [|discriminate]. cbn [bind].
  destruct (info_nce ab hp hn) as [b|e]; [|discriminate]. cbn [bind].
  intros H; injection H as <- <-. reflexivity.
Qed.
End ReversedTriples.

Lemma kg_embed_loss_reversed_witness :
  exists fwd bwd,
    kg_embed_loss (info_nce_R 1) (demo_model false None)
      (mkTensor [1; 2; 1] [1; 2]%R) (Some (mkTensor [1; 1] [5]%R))
      (mkTensor [1; 2; 1] [3; 4]%R) = Ok (fwd, bwd) /\
    kg_embed_loss (info_nce_R 1) (demo_model false None)
      (mkTensor [1; 2; 1] [3; 4]%R) (Some (negate (mkTensor [1; 1] [5]%R)))
      (mkTensor [1; 2; 1] [1; 2]%R) = Ok (bwd, fwd).
Proof.
  eexists. eexists. split.
  - eval_model. reflexivity.
  - apply kg_embed_loss_reversed. eval_model. reflexivity.
Defined.

(** ** The loop of [encode] *)

Section LoopFacts.

Lemma ceil_div_step (x s : nat) :
  0 < s -> 0 < x -> ceil_div x s = S (ceil_div (x - s) s).
Proof.
  intros Hs Hx. unfold ceil_div.
  destruct (Nat.le_gt_cases s x) as [Hle|Hgt].
  - replace (x + s - 1) with ((x - s + s - 1) + 1 * s) by lia.
    rewrite Nat.div_add by lia. lia.
  - replace (x - s) with 0 by lia.
    rewrite (Nat.div_small (0 + s - 1)) by lia.
    assert (H1 : (x + s - 1) / s < 2) by (apply Nat.Div0.div_lt_upper_bound; lia).
    assert (H2 : 1 <= (x + s - 1) / s) by (apply Nat.div_le_lower_bound; lia).
    lia.
Qed.

Lemma range_up_multiples (b s fuel i : nat) :
  0 < s -> b - i <= fuel ->
  range_up b s fuel i = map (fun q => i + q * s) (seq 0 (ceil_div (b - i) s)).
Proof.
  intros Hs. revert i; induction fuel as [|fuel IH]; intros i Hf.
  - replace (b - i) with 0 by lia. unfold ceil_div.
    rewrite Nat.div_small by lia. reflexivity.
  - simpl. destruct (Nat.ltb_spec i b) as [Hib|Hib].
    + rewrite (ceil_div_step Hs) by lia. cbn [seq map].
      rewrite Nat.add_0_r. f_equal.
      rewrite IH by lia. rewrite <- seq_shift, map_map.
      replace (b - i - s) with (b - (i + s)) by lia.
      apply map_ext. intros q. simpl. lia.
    + replace (b - i) with 0 by lia. unfold ceil_div.
      rewrite Nat.div_small by lia. reflexivity.
Qed.

Lemma loop_starts (b s : nat) :
  0 < s ->
  py_range0 b (Z.of_nat s) = Ok (map (fun q => q * s) (seq 0 (ceil_div b s))).
Proof.
  intros Hs. unfold py_range0.
  destruct (Z.eqb_spec (Z.of_nat s) 0); [lia|].
  destruct (Z.ltb_spec (Z.of_nat s) 0); [lia|].
  rewrite Nat2Z.id, range_up_multiples by lia.
  rewrite Nat.sub_0_r. reflexivity.
Qed.

Lemma chunk_start_in_batch (b s q : nat) :
  0 < s -> q < ceil_div b s -> q * s < b.
Proof.
  intros Hs Hq. unfold ceil_div in Hq.
  pose proof (Nat.Div0.mul_div_le (b + s - 1) s) as Hle. nia.
Qed.

Lemma lookup_field_map (k : string) (f : Features) (g : Tensor Z -> Tensor Z)
      (m : Tensor Z) :
  lookup_field k f = Ok m ->
  lookup_field k (map (fun kv => (fst kv, g (snd kv))) f) = Ok (g m).
Proof.
  induction f as [|[k' v] f IH]; simpl; [discriminate|].
  destruct (String.eqb k k'); [intros H; injection H as ->; reflexivity|exact IH].
Qed.

(** The rows [[i, e)] of a well-formed batch form a well-formed batch. *)
Lemma sub_features_wf (b L i e : nat) (f : Features) :
  wf_features b L f -> i <= e -> e <= b ->
  exists sub, sub_features i e f = Ok sub /\ wf_features (e - i) L sub.
Proof.
  intros Hwf Hie Heb. eexists. split; [apply (sub_features_rows Hwf Hie Heb)|].
  destruct Hwf as [Hall [m Hm]]. split.
  - apply Forall_forall. intros kv Hkv. apply in_map_iff in Hkv.
    destruct Hkv as [kv0 [<- Hkv0]]. rewrite Forall_forall in Hall.
    destruct (Hall kv0 Hkv0) as [Hsh Hws]. cbn [fst snd shape]. split; [reflexivity|].
    unfold well_shaped in *. cbn [shape data numel fold_right].
    rewrite Hsh in Hws. cbn [numel fold_right] in Hws.
    rewrite length_firstn, length_skipn, Hws. nia.
  - eexists.
    apply (@lookup_field_map "attention_mask" f
             (fun v => mkTensor [e - i; L]
                         (firstn ((e - i) * (L * 1)) (skipn (i * (L * 1)) (data v))))
             m Hm).
Qed.
End LoopFacts.

Section ChunkedEncode.
Context {F : Type}.
Variable normalize_vec : list F -> list F.

(** X10. With a sub-batch size [s > 0], on a well-formed batch of [b]
    rows, [encode] calls the encoder [ceil(b / s)] times, on the chunks
    that start at rows [0, s, 2s, ...] in this order, and concatenates
    what the calls return; each chunk handed to the encoder is a
    well-formed batch of at least one and at most [s] rows. *)
Theorem sub_batch_chunks (self : @M3 F) (f : Features) (s b L : nat) :
  0 < s -> sub_batch_size self = Some (Z.of_nat s) -> wf_features b L f ->
  encode normalize_vec self (Some f)
  = (dense_vecs <- (all_dense_vecs <-
                      mapM (encode_chunk_at normalize_vec self f s b)
                           (map (fun q => q * s) (seq 0 (ceil_div b s))) ;;
                    cat0 all_dense_vecs) ;;
     Ok (Some dense_vecs)) /\
  forall q, q < ceil_div b s ->
    exists sub,
      sub_features (q * s) (Nat.min (q * s + s) b) f = Ok sub /\
      wf_features (Nat.min (q * s + s) b - q * s) L sub /\
      1 <= Nat.min (q * s + s) b - q * s <= s.
Proof.
  intros Hs Hsub Hwf. split.
  - unfold encode. rewrite Hsub.
    destruct (Z.eqb_spec (Z.of_nat s) (-1)); [lia|]. cbn [negb].
    destruct Hwf as [Hall [m Hm]]. rewrite Hm. cbn [bind].
    assert (Hmsh : shape m = [b; L]).
    { apply lookup_field_In in Hm. apply in_map_iff in Hm.
      destruct Hm as [kv [<- Hkv]]. rewrite Forall_forall in Hall.
      apply (Hall kv Hkv). }
    unfold py_len. rewrite Hmsh. cbn [bind].
    rewrite (loop_starts b Hs). cbn [bind]. rewrite Nat2Z.id. reflexivity.
  - intros q Hq. pose proof (chunk_start_in_batch b Hs Hq) as Hlt.
    destruct (@sub_features_wf b L (q * s) (Nat.min (q * s + s) b) f Hwf)
      as [sub [Hsf Hsw]]; [lia|lia|].
    exists sub. split; [assumption|]. split; [assumption|]. lia.
Qed.
End ChunkedEncode.

Lemma sub_batch_chunks_witness :
  encode normalize_R (demo_model true (Some 2%Z)) (Some (demo_batch [5; 6; 7]%Z))
  = (dense_vecs <- (all_dense_vecs <-
                      mapM (encode_chunk_at normalize_R (demo_model true (Some 2%Z))
                                            (demo_batch [5; 6; 7]%Z) 2 3)
                           (map (fun q => q * 2) (seq 0 (ceil_div 3 2))) ;;
                    cat0 all_dense_vecs) ;;
     Ok (Some dense_vecs)).
Proof.
  apply (@sub_batch_chunks R normalize_R (demo_model true (Some 2%Z))
           (demo_batch [5; 6; 7]%Z) 2 3 1).
  - repeat constructor.
  - reflexivity.
  - split; [repeat constructor|eexists; reflexivity].
Defined.

(** ** Errors of [encode] *)

Section EncodeErrors.
Context {F : Type} {SF : Scalar F}.
Variable normalize_vec : list F -> list F.

(** X11. Under sub-batching the batch size is read off the attention
    mask before anything else: a batch without that field raises
    [KeyError], whatever the sub-batch size (0 and negative sizes
    included), while without sub-batching the field is not looked up
    and the batch goes to the encoder as it is. *)
Theorem encode_missing_attention_mask (self : M3) (f : Features) (s : Z) :
  lookup_field "attention_mask" f = Raise KeyError ->
  (sub_batch_size self = Some s -> s <> (-1)%Z ->
   encode normalize_vec self (Some f) = Raise KeyError) /\
  (sub_batch_size self = None \/ sub_batch_size self = Some (-1)%Z ->
   encode normalize_vec self (Some f)
   = (v <- _encode normalize_vec self f ;; Ok (Some v))).
Proof.
  intros Hk. split.
  - intros Hs Hne. unfold encode. rewrite Hs.
    destruct (Z.eqb_spec s (-1)); [contradiction|]. cbn [negb].
    rewrite Hk. reflexivity.
  - intros [H|H]; unfold encode; rewrite H; reflexivity.
Qed.

(** X12. A sub-batch size of 0 is a zero step for [range] and raises
    [ValueError]; a negative size other than [-1] yields no chunk at
    all, and [torch.cat] fails on the empty list (with a [ValueError] or
    a [RuntimeError], by the version of torch).  Neither reaches the
    encoder. *)
Theorem encode_bad_sub_batch_size (self : M3) (f : Features) (s : Z)
        (m : Tensor Z) (n : nat) (rest : list nat) :
  sub_batch_size self = Some s ->
  lookup_field "attention_mask" f = Ok m -> shape m = n :: rest ->
  (s = 0%Z -> encode normalize_vec self (Some f) = Raise ValueError) /\
  ((s < -1)%Z -> encode normalize_vec self (Some f) = Raise EmptyCatError).
Proof.
  intros Hs Hm Hsh. split; intros Hv; unfold encode; rewrite Hs.
  - subst s. cbn [Z.eqb negb]. rewrite Hm. cbn [bind].
    unfold py_len. rewrite Hsh. reflexivity.
  - destruct (Z.eqb_spec s (-1)); [lia|]. cbn [negb]. rewrite Hm. cbn [bind].
    unfold py_len. rewrite Hsh. cbn [bind]. unfold py_range0.
    destruct (Z.eqb_spec s 0); [lia|]. destruct (Z.ltb_spec s 0); [|lia].
    reflexivity.
Qed.

Lemma mapM_first_failure {A B} (g : A -> result B) (pre post : list A) (x : A) (e : exn) :
  (forall k, In k pre -> exists t, g k = Ok t) -> g x = Raise e ->
  mapM g (pre ++ x :: post) = Raise e.
Proof.
  induction pre as [|a pre IH]; intros Hpre Hx; simpl.
  - rewrite Hx. reflexivity.
  - destruct (Hpre a (or_introl eq_refl)) as [t Ht]. rewrite Ht. cbn [bind].
    rewrite IH; auto. intros k Hk. apply Hpre. right. assumption.
Qed.

(** X13. A failure of the encoder on a chunk aborts the whole call:
    when the chunks before chunk [i] are encoded and chunk [i] raises
    [e], [encode] raises [e]; the chunks after it are not encoded and
    nothing of what was encoded is returned. *)
Theorem encode_aborts_at_first_failure
        (self : M3) (f : Features) (s : Z) (m : Tensor Z) (n : nat) (rest : list nat)
        (pre post : list nat) (i : nat) (e : exn) :
  sub_batch_size self = Some s -> (0 < s)%Z ->
  lookup_field "attention_mask" f = Ok m -> shape m = n :: rest ->
  range_up n (Z.to_nat s) n 0 = pre ++ i :: post ->
  (forall k, In k pre ->
             exists t, encode_chunk_at normalize_vec self f (Z.to_nat s) n k = Ok t) ->
  encode_chunk_at normalize_vec self f (Z.to_nat s) n i = Raise e ->
  encode normalize_vec self (Some f) = Raise e.
Proof.
  intros Hs Hpos Hm Hsh Hr Hpre Hi. unfold encode. rewrite Hs.
  destruct (Z.eqb_spec s (-1)); [lia|]. cbn [negb]. rewrite Hm. cbn [bind].
  unfold py_len. rewrite Hsh. cbn [bind]. unfold py_range0.
  destruct (Z.eqb_spec s 0); [lia|]. destruct (Z.ltb_spec s 0); [lia|].
  cbn [bind]. rewrite Hr.
  pose proof (@mapM_first_failure _ _
                (fun k => encode_chunk_at normalize_vec self f (Z.to_nat s) n k)
                pre post i e Hpre Hi) as Hfail.
  unfold encode_chunk_at in Hfail. cbv zeta. rewrite Hfail.
  reflexivity.
Qed.
End EncodeErrors.

Lemma encode_missing_attention_mask_witness :
  encode normalize_R (demo_model false (Some 2%Z))
         (Some [("input_ids", mkTensor [1; 1] [5%Z])]) = Raise KeyError.
Proof.
  apply (proj1 (@encode_missing_attention_mask R normalize_R
                  (demo_model false (Some 2%Z))
                  [("input_ids", mkTensor [1; 1] [5%Z])] 2 eq_refl)).
  - reflexivity.
  - discriminate.
Defined.

Lemma encode_bad_sub_batch_size_witness :
  encode normalize_R (demo_model false (Some 0%Z)) (Some (demo_batch [5; 6]%Z))
  = Raise ValueError /\
  encode normalize_R (demo_model false (Some (-3)%Z)) (Some (demo_batch [5; 6]%Z))
  = Raise EmptyCatError.
Proof.
  split.
  - apply (proj1 (@encode_bad_sub_batch_size R normalize_R
                    (demo_model false (Some 0%Z)) (demo_batch [5; 6]%Z) 0
                    (mkTensor [2; 1] [1; 1]%Z) 2 [1] eq_refl eq_refl eq_refl)).
    reflexivity.
  - apply (proj2 (@encode_bad_sub_batch_size R normalize_R
                    (demo_model false (Some (-3)%Z)) (demo_batch [5; 6]%Z) (-3)
                    (mkTensor [2; 1] [1; 1]%Z) 2 [1] eq_refl eq_refl eq_refl)).
    reflexivity.
Defined.

Lemma encode_aborts_at_first_failure_witness :
  encode normalize_R (fragile_model (Some 2%Z)) (Some (demo_batch [1; 2; -3; 4]%Z))
  = Raise RuntimeError.
Proof.
  apply (@encode_aborts_at_first_failure R normalize_R
           (fragile_model (Some 2%Z)) (demo_batch [1; 2; -3; 4]%Z) 2
           (mkTensor [4; 1] [1; 1; 1; 1]%Z) 4 [1] [0] [] 2 RuntimeError).
  - reflexivity.
  - reflexivity.
  - reflexivity.
  - reflexivity.
  - reflexivity.
  - intros k [<-|[]]. eexists. eval_model. reflexivity.
  - reflexivity.
Defined.

(** ** What [encode] returns *)

Section EncodeOutput.
Context {F : Type} {SF : Scalar F}.
Variable normalize_vec : list F -> list F.
Variable d : nat.
Variable enc : list (string * list Z) -> nat -> nat -> F.
Variable vocab : nat.

Lemma encoded_batch_well_shaped (nz : bool) (b : nat) (f : Features) :
  (forall v, length (normalize_vec v) = length v) ->
  well_shaped (encoded_batch d enc normalize_vec nz b f).
Proof.
  intros Hnv. unfold well_shaped, encoded_batch; cbn [shape data numel fold_right].
  rewrite (@length_concat_uniform _ d).
  - rewrite length_map, length_seq. lia.
  - apply Forall_forall. intros l Hl. apply in_map_iff in Hl.
    destruct Hl as [i [<- _]]. unfold encoded_row.
    destruct nz; rewrite ?Hnv, length_map, length_seq; reflexivity.
Qed.

Lemma encode_whole_batch (self : M3) (f : Features) (b L : nat) :
  model self = per_row_encoder d enc vocab ->
  wf_features b L f ->
  sub_batch_size self = None \/ sub_batch_size self = Some (-1)%Z \/
  (exists s, sub_batch_size self = Some s /\ (0 < s)%Z /\ 0 < b) ->
  encode normalize_vec self (Some f)
  = if L =? 0 then Raise IndexError
    else Ok (Some (encoded_batch d enc normalize_vec (normlized self) b f)).
Proof.
  intros Hm Hwf Hs.
  assert (Hone : encode normalize_vec self (Some f)
                 = (v <- _encode normalize_vec self f ;; Ok (Some v))).
  { destruct Hs as [H|[H|[s [H [Hpos Hb]]]]].
    - apply encode_single_pass. left; assumption.
    - apply encode_single_pass. right; assumption.
    - apply (encode_in_chunks normalize_vec self H Hpos Hm Hwf Hb). }
  rewrite Hone, (@encode_one_pass _ _ normalize_vec d enc vocab self b L f Hm
                   (wf_features_head Hwf)).
  destruct (L =? 0); reflexivity.
Qed.

(** X14. Over an encoder that is a pure function of each row, on a
    well-formed batch of [b] rows padded to a length [L > 0], and with a
    normalisation that keeps the length of a vector, [encode] returns
    one embedding of the hidden size per row, a well-shaped [[b, d]]
    tensor, with or without sub-batching (a positive sub-batch size
    needs [b > 0]); padded to length 0, the batch has no first position
    to pool and the call raises [IndexError]. *)
Theorem encode_output_shape (self : M3) (f : Features) (b L : nat) :
  model self = per_row_encoder d enc vocab ->
  wf_features b L f ->
  (forall v, length (normalize_vec v) = length v) ->
  sub_batch_size self = None \/ sub_batch_size self = Some (-1)%Z \/
  (exists s, sub_batch_size self = Some s /\ (0 < s)%Z /\ 0 < b) ->
  (0 < L ->
   exists t, encode normalize_vec self (Some f) = Ok (Some t) /\
             shape t = [b; d] /\ well_shaped t) /\
  (L = 0 -> encode normalize_vec self (Some f) = Raise IndexError).
Proof.
  intros Hm Hwf Hnv Hs. rewrite (encode_whole_batch self Hm Hwf Hs). split.
  - intros HL. destruct (Nat.eqb_spec L 0); [lia|].
    eexists. split; [reflexivity|]. split; [reflexivity|].
    apply encoded_batch_well_shaped. assumption.
  - intros ->. reflexivity.
Qed.

(** X15. Only the hidden state at position 0 is pooled: two encoders
    that agree there, whatever they compute at the other positions,
    give the same embeddings on every well-formed batch. *)
Theorem encode_pools_first_position
        (enc' : list (string * list Z) -> nat -> nat -> F) (vocab' : nat)
        (self self' : M3) (f : Features) (b L : nat) :
  model self = per_row_encoder d enc vocab ->
  model self' = per_row_encoder d enc' vocab' ->
  normlized self = normlized self' ->
  wf_features b L f ->
  (forall r j, enc r 0 j = enc' r 0 j) ->
  _encode normalize_vec self f = _encode normalize_vec self' f.
Proof.
  intros Hm Hm' Hn Hwf Hagree.
  rewrite (@encode_one_pass _ _ normalize_vec d enc vocab self b L f Hm
             (wf_features_head Hwf)).
  rewrite (@encode_one_pass _ _ normalize_vec d enc' vocab' self' b L f Hm'
             (wf_features_head Hwf)).
  destruct (L =? 0); [reflexivity|].
  unfold encoded_batch, encoded_row. rewrite Hn. do 3 f_equal.
  apply map_ext. intros i.
  assert (Hrow : map (fun j => enc (row_view f i) 0 j) (seq 0 d)
                 = map (fun j => enc' (row_view f i) 0 j) (seq 0 d))
    by (apply map_ext; intros j; apply Hagree).
  rewrite Hrow. reflexivity.
Qed.
End EncodeOutput.

Lemma encode_output_shape_witness :
  exists t, encode normalize_R (demo_model true (Some 2%Z))
                   (Some (demo_batch [5; 6; 7]%Z)) = Ok (Some t) /\
            shape t = [3; 2] /\ well_shaped t.
Proof.
  destruct (@encode_output_shape R _ normalize_R 2 demo_enc 10
              (demo_model true (Some 2%Z)) (demo_batch [5; 6; 7]%Z) 3 1)
    as [H _].
  - reflexivity.
  - split; [repeat constructor|eexists; reflexivity].
  - exact length_normalize_R.
  - right. right. exists 2%Z. repeat split. repeat constructor.
  - apply H. repeat constructor.
Defined.

Lemma encode_pools_first_position_witness :
  _encode normalize_R (demo_model true None) (demo_batch [5; 6]%Z)
  = _encode normalize_R
      (mkM3 (per_row_encoder 2
               (fun r t j => match t with
                             | O => demo_enc r t j
                             | S _ => 0%R
                             end) 7)
            demo_tokenizer 7 true 1%R None)
      (demo_batch [5; 6]%Z).
Proof.
  apply (@encode_pools_first_position R _ normalize_R 2 demo_enc 10
           (fun r t j => match t with
                         | O => demo_enc r t j
                         | S _ => 0%R
                         end) 7
           (demo_model true None)
           (mkM3 (per_row_encoder 2
                    (fun r t j => match t with
                                  | O => demo_enc r t j
                                  | S _ => 0%R
                                  end) 7)
                 demo_tokenizer 7 true 1%R None)
           (demo_batch [5; 6]%Z) 2 1).
  - reflexivity.
  - reflexivity.
  - reflexivity.
  - split; [repeat constructor|eexists; reflexivity].
  - reflexivity.
Defined.

(** ** Norms of normalised embeddings *)

Section NormBound.
Local Open Scope R_scope.

Lemma normalize_R_at_most_one (v : list R) : l2_norm (normalize_R v) <= 1.
Proof.
  pose proof normalize_eps_pos as He.
  unfold normalize_R. set (c := Rmax (l2_norm v) normalize_eps).
  assert (Hc : 0 < c) by (unfold c; pose proof (Rmax_r (l2_norm v) normalize_eps); lra).
  assert (Hv : l2_norm v <= c) by (unfold c; apply Rmax_l).
  assert (Hv0 : 0 <= l2_norm v) by (unfold l2_norm; apply sqrt_pos).
  unfold l2_norm at 1. rewrite map_map.
  rewrite (map_ext (fun x => x / c * (x / c)) (fun x => / (c * c) * (x * x)))
    by (intros x; field; lra).
  rewrite fsum_scaled.
  assert (Hsq : fsum (map (fun x => x * x) v) = l2_norm v * l2_norm v).
  { unfold l2_norm. rewrite sqrt_sqrt; [reflexivity|apply fsum_squares_nonneg]. }
  rewrite Hsq. rewrite <- sqrt_1. apply sqrt_le_1_alt.
  assert (Hinv : 0 < / (c * c)) by (apply Rinv_0_lt_compat; nra).
  assert (Hle : / (c * c) * (l2_norm v * l2_norm v) <= / (c * c) * (c * c)).
  { apply Rmult_le_compat_l; [lra|nra]. }
  rewrite Rinv_l in Hle by nra. exact Hle.
Qed.

Lemma normalize_R_small (v : list R) :
  l2_norm v <= normalize_eps ->
  normalize_R v = map (fun x => x / normalize_eps) v.
Proof.
  intros Hv. unfold normalize_R. rewrite Rmax_right by assumption. reflexivity.
Qed.

(** X16. With normalisation on, no row of the output of [_encode] has
    an L2 norm above 1, whatever the encoder returns; a row pooled from
    a vector of norm at most [eps = 1e-12] is that vector divided by
    [eps]. *)
Theorem encode_rows_norm_at_most_one
        (self : @M3 R) (f : Features) (lhs pooled : Tensor R) (i : nat) :
  normlized self = true ->
  run (model self) f = Ok lhs -> well_shaped lhs ->
  select1 2 0 lhs = Ok pooled ->
  (i < n_rows pooled)%nat ->
  exists t, _encode normalize_R self f = Ok t /\
            shape t = shape pooled /\
            l2_norm (row_of t i) <= 1 /\
            (l2_norm (row_of pooled i) <= normalize_eps ->
             row_of t i = map (fun x => x / normalize_eps) (row_of pooled i)).
Proof.
  intros Hn Hrun Hw Hsel Hi.
  unfold _encode. rewrite Hrun. cbn [bind]. rewrite Hsel. cbn [bind]. rewrite Hn.
  destruct (@normalize_last_rows pooled i) as [u [Hu [Hsh Hrow]]].
  - apply (@select1_well_shaped _ 2 0 lhs pooled Hw Hsel).
  - apply (@select1_shape_nonempty 2 0 lhs pooled Hsel).
  - assumption.
  - exists u. split; [assumption|]. split; [assumption|].
    rewrite Hrow. split; [apply normalize_R_at_most_one|apply normalize_R_small].
Qed.
End NormBound.

Lemma encode_rows_norm_at_most_one_witness :
  exists t, _encode normalize_R (scalar_model true) (demo_batch [0%Z]) = Ok t /\
            shape t = [1; 1] /\
            (l2_norm (row_of t 0) <= 1)%R.
Proof.
  destruct (@encode_rows_norm_at_most_one (scalar_model true) (demo_batch [0%Z])
              (mkTensor [1; 1; 1] [IZR 0]) (mkTensor [1; 1] [IZR 0]) 0)
    as [t [H1 [H2 [H3 _]]]].
  - reflexivity.
  - reflexivity.
  - reflexivity.
  - reflexivity.
  - repeat constructor.
  - exists t. repeat split; assumption.
Defined.



(** ** Reranking *)

Section Rerank.
Context {F : Type} {SF : Scalar F}.
Variable normalize_vec : list F -> list F.
Variable topk : Tensor F -> Z -> result (list nat).

Lemma select_topk_no_result (self : M3Score) (query : string)
      (documents : list string) (k : Z) :
  exists e, select_topk normalize_vec topk self query documents k = Raise e.
Proof.
  unfold select_topk.
  destruct (encode_call normalize_vec (base self) [PFeatures _] []) as [q|e];
    eexists; reflexivity.
Qed.

Lemma texts_missing (paragraphs : list Paragraph) :
  (exists p, In p paragraphs /\ lookup_kw "text" p = None) ->
  mapM text_of paragraphs = Raise KeyError.
Proof.
  induction paragraphs as [|q ps IH]; intros [p [Hin Hp]]; [contradiction|].
  simpl. unfold text_of at 1.
  destruct (lookup_kw "text" q) as [t|] eqn:Hq; [|reflexivity].
  cbn [bind]. destruct Hin as [->|Hin]; [congruence|].
  rewrite IH by (exists p; auto). reflexivity.
Qed.

Lemma texts_present (paragraphs : list Paragraph) :
  (forall p, In p paragraphs -> lookup_kw "text" p <> None) ->
  exists texts, mapM text_of paragraphs = Ok texts /\
                length texts = length paragraphs.
Proof.
  induction paragraphs as [|q ps IH]; intros Hall.
  - exists []. split; reflexivity.
  - destruct IH as [texts [Ht Hl]]; [intros p Hp; apply Hall; right; assumption|].
    simpl. unfold text_of at 1.
    destruct (lookup_kw "text" q) as [t|] eqn:Hq.
    + cbn [bind]. rewrite Ht. cbn [bind]. exists (t :: texts).
      split; [reflexivity|simpl; congruence].
    + exfalso. apply (Hall q (or_introl eq_refl)). assumption.
Qed.

(** X18. Reranking returns no candidate on any input.  A candidate
    without a ['text'] field raises [KeyError] before anything is
    encoded; when every candidate has one, the call raises what
    [select_topk] raises on their texts. *)
Theorem rerank_raises (self : M3Score) (query : string)
        (paragraphs : list Paragraph) (k : Z) :
  (exists e, M3ForScore_call normalize_vec topk self query paragraphs k = Raise e) /\
  ((exists p, In p paragraphs /\ lookup_kw "text" p = None) ->
   M3ForScore_call normalize_vec topk self query paragraphs k = Raise KeyError) /\
  ((forall p, In p paragraphs -> lookup_kw "text" p <> None) ->
   exists texts e,
     mapM text_of paragraphs = Ok texts /\
     select_topk normalize_vec topk self query texts k = Raise e /\
     M3ForScore_call normalize_vec topk self query paragraphs k = Raise e).
Proof.
  split; [|split].
  - unfold M3ForScore_call.
    destruct (mapM text_of paragraphs) as [texts|e]; [|eexists; reflexivity].
    cbn [bind]. destruct (select_topk_no_result self query texts k) as [e He].
    rewrite He. eexists; reflexivity.
  - intros Hm. unfold M3ForScore_call. rewrite (@texts_missing paragraphs Hm). reflexivity.
  - intros Hall. destruct (@texts_present paragraphs Hall) as [texts [Ht _]].
    destruct (select_topk_no_result self query texts k) as [e He].
    exists texts, e. split; [assumption|]. split; [assumption|].
    unfold M3ForScore_call. rewrite Ht. cbn [bind]. rewrite He. reflexivity.
Qed.
End Rerank.

Lemma rerank_raises_witness :
  M3ForScore_call normalize_R (fun _ _ => Ok [])
    (mkM3Score (demo_model false None) (PInt 512) 8192%Z) "q"
    [[("text", "a")]; [("title", "b")]] 1%Z
  = Raise KeyError.
Proof.
  apply (proj1 (proj2 (@rerank_raises R _ normalize_R (fun _ _ => Ok [])
                         (mkM3Score (demo_model false None) (PInt 512) 8192%Z) "q"
                         [[("text", "a")]; [("title", "b")]] 1%Z))).
  exists [("title", "b")]. split; [right; left; reflexivity|reflexivity].
Defined.

(** ** The training step on well-formed groups *)

Section TrainingStep.
Context {F : Type} {SF : Scalar F}.
Variable cross_entropy : Tensor F -> list nat -> result F.
Variable info_nce : Tensor F -> Tensor F -> Tensor F -> result F.
Variable normalize_vec : list F -> list F.
Variable d : nat.
Variable enc : list (string * list Z) -> nat -> nat -> F.
Variable vocab : nat.

Lemma all_tensors_some (ts : list (Tensor F)) :
  all_tensors (map Some ts) = Ok ts.
Proof.
  induction ts as [|t ts IH]; simpl; auto. rewrite IH. reflexivity.
Qed.

Lemma list_eqb_refl (l : list nat) : list_eqb l l = true.
Proof. unfold list_eqb. destruct (list_eq_dec Nat.eq_dec l l); congruence. Qed.

(** Encoding the members of a group and stacking them gives a
    [[b, N, d]] tensor. *)
Lemma encode_group_shape (self : M3) (b : nat) (fs : list Features) :
  model self = per_row_encoder d enc vocab ->
  sub_batch_setting self b ->
  wf_group b fs ->
  exists xs, encode_group normalize_vec self (map Some fs)
             = Ok (mkTensor [b; length fs; d] xs).
Proof.
  intros Hm Hs [Hne Hall]. unfold encode_group.
  rewrite (@mapM_pointwise _ _ _
             (fun o => match o with
                       | Some f => Some (encoded_batch d enc normalize_vec
                                                        (normlized self) b f)
                       | None => None
                       end)).
  2:{ intros o Ho. apply in_map_iff in Ho. destruct Ho as [f [<- Hf]].
      rewrite Forall_forall in Hall. destruct (Hall f Hf) as [L [Hwf HL]].
      rewrite (@encode_whole_batch _ _ normalize_vec d enc vocab self f b L Hm Hwf Hs).
      destruct (Nat.eqb_spec L 0); [lia|reflexivity]. }
  cbn [bind]. rewrite map_map. unfold stack1.
  rewrite <- (map_map (fun f => encoded_batch d enc normalize_vec (normlized self) b f)
                      Some).
  rewrite all_tensors_some. cbn [bind].
  destruct fs as [|f0 fs']; [congruence|]. cbn [map].
  set (ts := encoded_batch d enc normalize_vec (normlized self) b f0
             :: map (fun f => encoded_batch d enc normalize_vec (normlized self) b f) fs').
  assert (Hsame : forallb (fun u => list_eqb
                     (shape (encoded_batch d enc normalize_vec (normlized self) b f0))
                     (shape u)) ts = true).
  { apply forallb_forall. intros u Hu. unfold ts in Hu.
    destruct Hu as [<-|Hu]; [apply list_eqb_refl|].
    apply in_map_iff in Hu. destruct Hu as [f [<- _]]. apply list_eqb_refl. }
  rewrite Hsame. cbn [shape encoded_batch].
  eexists. unfold ts. cbn [length]. rewrite length_map. reflexivity.
Qed.

Lemma select_first_shape (b N : nat) (xs : list F) :
  0 < N ->
  exists ys, select1 3 0 (mkTensor [b; N; d] xs) = Ok (mkTensor [b; d] ys).
Proof.
  intros HN. unfold select1; cbn [shape length].
  change (3 <? 3) with false. cbv iota.
  destruct (Nat.ltb_spec 0 N); [|lia]. eexists. reflexivity.
Qed.

Lemma wf_group_length (b : nat) (fs : list Features) :
  wf_group b fs -> 0 < length fs.
Proof. intros [Hne _]. destruct fs; [congruence|simpl; lia]. Qed.

(** X19. On groups of well-formed batches of [b > 0] rows, with as many
    members in the head descriptions as in the tail descriptions, the
    training step scores the [2b] queries against the passage set as
    it was stacked, [[2b, N, d]]: the retrieval loss is the
    cross-entropy of the [[2b, 2b * N]] logits, whose row [i] holds the
    products of every query with the members of candidate set [i],
    against the targets [0, 1, ..., 2b - 1]. *)
Theorem forward_retrieval_targets
        (self : M3) (b : nat) (hs hds ts tds : list Features)
        (link : option Features) (lk : option (Tensor F)) :
  model self = per_row_encoder d enc vocab ->
  sub_batch_setting self b -> 0 < b ->
  wf_group b hs -> wf_group b hds -> wf_group b ts -> wf_group b tds ->
  length hds = length tds ->
  encode normalize_vec self link = Ok lk ->
  exists h t qd pd,
    encode_group normalize_vec self (map Some hs) = Ok h /\
    encode_group normalize_vec self (map Some ts) = Ok t /\
    forward_step cross_entropy info_nce normalize_vec self
      (map Some hs, map Some hds, link, map Some ts, map Some tds)
    = (loss1 <- cross_entropy
                  (grouped_logits self (b + b) (b + b) (length hds) d qd pd)
                  (seq 0 (b + b)) ;;
       ' (loss2, loss3) <- kg_embed_loss info_nce self h lk t ;;
       Ok (mkStep (mkTensor [b + b; d] qd) (mkTensor [b + b; length hds; d] pd)
                  loss1 loss2 loss3)).
Proof.
  intros Hm Hs Hb Hh Hhd Ht Htd Hlen Hlk.
  destruct (encode_group_shape Hm Hs Hh) as [xh Eh].
  destruct (encode_group_shape Hm Hs Hhd) as [xhd Ehd].
  destruct (encode_group_shape Hm Hs Ht) as [xt Et].
  destruct (encode_group_shape Hm Hs Htd) as [xtd Etd].
  destruct (@select_first_shape b (length hs) xh (wf_group_length Hh)) as [yh Sh].
  destruct (@select_first_shape b (length ts) xt (wf_group_length Ht)) as [yt St].
  exists (mkTensor [b; length hs; d] xh), (mkTensor [b; length ts; d] xt),
         (yh ++ yt), (xhd ++ xtd).
  split; [assumption|]. split; [assumption|].
  unfold forward_step. rewrite Eh, Ehd, Et, Etd, Hlk. cbn [bind].
  rewrite Sh, St. cbn [bind cat0 cat0_from shape data].
  rewrite list_eqb_refl. rewrite <- Hlen, list_eqb_refl. cbn [bind].
  rewrite (@entity_reconstruction_loss_grouped _ _ cross_entropy self (b + b)
             (length hds) d (yh ++ yt) (xhd ++ xtd)) by lia.
  reflexivity.
Qed.
End TrainingStep.

Lemma demo_group_wf (ids : list Z) :
  ids <> [] ->
  wf_group 1 (map (fun z => demo_batch [z]) ids).
Proof.
  intros Hne. split.
  - destruct ids; [congruence|discriminate].
  - apply Forall_forall. intros f Hf. apply in_map_iff in Hf.
    destruct Hf as [z [<- _]]. exists 1. split; [|lia].
    split; [repeat constructor|eexists; reflexivity].
Qed.

Lemma forward_retrieval_targets_witness :
  exists h t qd pd lk,
    forward_step cross_entropy_R (info_nce_R 1) normalize_R (scalar_model false)
                 step_inputs
    = (loss1 <- cross_entropy_R
                  (grouped_logits (scalar_model false) (1 + 1) (1 + 1) 2 1 qd pd)
                  (seq 0 (1 + 1)) ;;
       ' (loss2, loss3) <- kg_embed_loss (info_nce_R 1) (scalar_model false) h lk t ;;
       Ok (mkStep (mkTensor [1 + 1; 1] qd) (mkTensor [1 + 1; 2; 1] pd)
                  loss1 loss2 loss3)).
Proof.
  destruct (@forward_retrieval_targets R _ cross_entropy_R (info_nce_R 1) normalize_R
              1 demo_enc 10 (scalar_model false) 1
              (map (fun z => demo_batch [z]) [0; 9]%Z)
              (map (fun z => demo_batch [z]) [0; 0]%Z)
              (map (fun z => demo_batch [z]) [1; 9]%Z)
              (map (fun z => demo_batch [z]) [1; 0]%Z)
              (Some (demo_batch [2%Z]))
              (Some (encoded_batch 1 demo_enc normalize_R false 1 (demo_batch [2%Z]))))
    as [h [t [qd [pd [_ [_ H]]]]]].
  - reflexivity.
  - left. reflexivity.
  - repeat constructor.
  - apply demo_group_wf. discriminate.
  - apply demo_group_wf. discriminate.
  - apply demo_group_wf. discriminate.
  - apply demo_group_wf. discriminate.
  - reflexivity.
  - reflexivity.
  - exists h, t, qd, pd,
      (Some (encoded_batch 1 demo_enc normalize_R false 1 (demo_batch [2%Z]))).
    exact H.
Defined.

Section MismatchedGroups.
Context {F : Type} {SF : Scalar F}.
Variable cross_entropy : Tensor F -> list nat -> result F.
Variable info_nce : Tensor F -> Tensor F -> Tensor F -> result F.
Variable normalize_vec : list F -> list F.
Variable d : nat.
Variable enc : list (string * list Z) -> nat -> nat -> F.
Variable vocab : nat.

Lemma list_eqb_neq (l1 l2 : list nat) : l1 <> l2 -> list_eqb l1 l2 = false.
Proof. intros H. unfold list_eqb. destruct (list_eq_dec Nat.eq_dec l1 l2); congruence. Qed.

(** X20. The head and the tail groups may differ in size, but the two
    description groups may not: when [head_desc] and [tail_desc] have
    different numbers of members their embeddings cannot be
    concatenated, and the training step raises [RuntimeError] before
    any loss is computed. *)
Theorem forward_mismatched_descriptions
        (self : M3) (b : nat) (hs hds ts tds : list Features) (link : option Features)
        (lk : option (Tensor F)) :
  model self = per_row_encoder d enc vocab ->
  sub_batch_setting self b ->
  wf_group b hs -> wf_group b hds -> wf_group b ts -> wf_group b tds ->
  length hds <> length tds ->
  encode normalize_vec self link = Ok lk ->
  forward cross_entropy info_nce normalize_vec self
    (map Some hs, map Some hds, link, map Some ts, map Some tds)
  = Raise RuntimeError.
Proof.
  intros Hm Hs Hh Hhd Ht Htd Hlen Hlk.
  destruct (@encode_group_shape _ _ normalize_vec d enc vocab self b hs Hm Hs Hh)
    as [xh Eh].
  destruct (@encode_group_shape _ _ normalize_vec d enc vocab self b hds Hm Hs Hhd)
    as [xhd Ehd].
  destruct (@encode_group_shape _ _ normalize_vec d enc vocab self b ts Hm Hs Ht)
    as [xt Et].
  destruct (@encode_group_shape _ _ normalize_vec d enc vocab self b tds Hm Hs Htd)
    as [xtd Etd].
  destruct (@select_first_shape _ d b (length hs) xh (wf_group_length Hh)) as [yh Sh].
  destruct (@select_first_shape _ d b (length ts) xt (wf_group_length Ht)) as [yt St].
  unfold forward, forward_step. rewrite Eh, Ehd, Et, Etd, Hlk. cbn [bind].
  rewrite Sh, St. cbn [bind cat0 cat0_from shape data].
  rewrite list_eqb_refl.
  rewrite list_eqb_neq by congruence. reflexivity.
Qed.
End MismatchedGroups.

Lemma forward_mismatched_descriptions_witness :
  forward cross_entropy_R (info_nce_R 1) normalize_R (scalar_model false)
    (map Some (map (fun z => demo_batch [z]) [0; 9]%Z),
     map Some (map (fun z => demo_batch [z]) [0; 0; 0]%Z),
     Some (demo_batch [2%Z]),
     map Some (map (fun z => demo_batch [z]) [1]%Z),
     map Some (map (fun z => demo_batch [z]) [1; 0]%Z))
  = Raise RuntimeError.
Proof.
  apply (@forward_mismatched_descriptions R _ cross_entropy_R (info_nce_R 1) normalize_R
           1 demo_enc 10 (scalar_model false) 1
           (map (fun z => demo_batch [z]) [0; 9]%Z)
           (map (fun z => demo_batch [z]) [0; 0; 0]%Z)
           (map (fun z => demo_batch [z]) [1]%Z)
           (map (fun z => demo_batch [z]) [1; 0]%Z)
           (Some (demo_batch [2%Z]))
           (Some (encoded_batch 1 demo_enc normalize_R false 1 (demo_batch [2%Z])))).
  - reflexivity.
  - left. reflexivity.
  - apply demo_group_wf. discriminate.
  - apply demo_group_wf. discriminate.
  - apply demo_group_wf. discriminate.
  - apply demo_group_wf. discriminate.
  - discriminate.
  - reflexivity.
Defined.
